(** * TheFootballManager: valuation, match simulation and analytics engines

    A shallow embedding of [src/main.py] (classes [TransferMarket],
    [MatchEngine] and [Analytics]) and the properties its specification
    states about them.

    Conventions of the embedding:
    - Python [int] is [Z]; Python [float] is IEEE-754 binary64, modelled by
      [spec_float] with the correctly rounded operations of [SpecFloat];
    - a raised exception is the [Raise] branch of [result];
    - the shared [data] dictionary is a record threaded through the calls
      that mutate it;
    - the random source is an explicit, finite list of raw draws. *)

From Stdlib Require Import ZArith List String Ascii Bool Lia.
From Stdlib Require Import QArith Qround.
From Stdlib Require Import Sorting.Sorted Sorting.Permutation.
From Stdlib Require Import SpecFloat.
Import ListNotations.

Open Scope string_scope.
Open Scope Z_scope.

(* ================================================================= *)
(** ** Exceptions and the error monad *)

(** The exceptions the three engines can raise, named after the Python
    class and the place that raises them. *)
Inductive exn : Type :=
| PlayerNotFound (player_name : string)
    (* ValueError(f"Player {player_name} not found") *)
| TeamNotFound (team_name : string)
    (* ValueError(f"Team {new_team} not found") *)
| MatchTeamNotFound
    (* ValueError("Team not found"), simulate_match *)
| NoPlayersFound (team_name : string)
    (* ValueError(f"No players found for team {team_name}") *)
| MaxEmptySequence
    (* ValueError raised by the builtin max() on an empty sequence *)
| ZeroDivisionError
    (* raised by the operator / on a zero divisor *)
| OverflowError
    (* int too large for a float, or int() of an infinity *)
| NaNToInteger
    (* ValueError raised by int() on a NaN *)
| StopIteration
    (* next() on an exhausted generator, no default *)
| IndexError.
    (* random.choice on an empty sequence *)

Inductive result (A : Type) : Type :=
| Ok (a : A)
| Raise (e : exn).
Arguments Ok {A} a.
Arguments Raise {A} e.

Definition bind {A B : Type} (r : result A) (k : A -> result B) : result B :=
  match r with
  | Ok a => k a
  | Raise e => Raise e
  end.

Notation "x <- r ;; k" := (bind r (fun x => k))
  (at level 61, r at next level, right associativity).

(* ================================================================= *)
(** ** Python numbers *)

Module PyNum.

(** binary64 *)
Definition prec : Z := 53.
Definition emax : Z := 1024.

Definition float : Type := spec_float.

Definition fmul : float -> float -> float := SFmul prec emax.
Definition fadd : float -> float -> float := SFadd prec emax.
Definition fsub : float -> float -> float := SFsub prec emax.
Definition fdiv : float -> float -> float := SFdiv prec emax.

(** An operation on [int] operands that yields a float raises
    [OverflowError] where the rounded result leaves the finite range. *)
Definition finite_or_overflow (x : float) : result float :=
  match x with
  | S754_infinity _ => Raise OverflowError
  | _ => Ok x
  end.

(** The conversion of an [int] operand in mixed arithmetic
    ([int * float], [int - float], [int + float]): round to nearest,
    ties to even. *)
Definition float_of_int (z : Z) : result float :=
  finite_or_overflow (binary_normalize prec emax z 0 false).

(** An integer as an exact, not normalised, floating-point operand. *)
Definition exact_operand (z : Z) : float :=
  match z with
  | Z0 => S754_zero false
  | Zpos p => S754_finite false p 0
  | Zneg p => S754_finite true p 0
  end.

(** [a / b] on two [int]s: the correctly rounded quotient. *)
Definition int_truediv (a b : Z) : result float :=
  if b =? 0 then Raise ZeroDivisionError
  else finite_or_overflow (fdiv (exact_operand a) (exact_operand b)).

(** [x / y] on two floats. *)
Definition float_truediv (x y : float) : result float :=
  match y with
  | S754_zero _ => Raise ZeroDivisionError
  | _ => Ok (fdiv x y)
  end.

Definition int_mul_float (a : Z) (y : float) : result float :=
  x <- float_of_int a ;; Ok (fmul x y).
Definition float_mul_int (x : float) (b : Z) : result float :=
  y <- float_of_int b ;; Ok (fmul x y).
Definition int_sub_float (a : Z) (y : float) : result float :=
  x <- float_of_int a ;; Ok (fsub x y).
Definition int_add_float (a : Z) (y : float) : result float :=
  x <- float_of_int a ;; Ok (fadd x y).

(** [int(x)]: truncation toward zero. *)
Definition int_of_float (x : float) : result Z :=
  match x with
  | S754_zero _ => Ok 0
  | S754_finite s m e => Ok (cond_Zopp s (Z.shiftl (Zpos m) e))
  | S754_infinity _ => Raise OverflowError
  | S754_nan => Raise NaNToInteger
  end.

(** [math.floor(x)]: the largest integer not above [x]. Not used by the
    program; the specification words its formula with it. *)
Definition floor_of_float (x : float) : result Z :=
  match x with
  | S754_zero _ => Ok 0
  | S754_finite s m e => Ok (Z.shiftl (cond_Zopp s (Zpos m)) e)
  | S754_infinity _ => Raise OverflowError
  | S754_nan => Raise NaNToInteger
  end.

(** [x] is a zero or a positive number. *)
Definition nonnegative (x : float) : bool :=
  match x with
  | S754_zero _ => true
  | S754_finite s _ _ => negb s
  | S754_infinity s => negb s
  | S754_nan => false
  end.

(** The literals of the source, as the parser rounds them. *)
Definition lit_0_05 : float := S754_finite false 7205759403792794 (-57).
Definition lit_1_1 : float := S754_finite false 4953959590107546 (-52).

End PyNum.
Import PyNum.

(* ================================================================= *)
(** ** Data model: the league state *)

Record Stats : Type := mkStats {
  goals : Z;
  assists : Z;
  minutes_played : Z;
  shots_on_target : Z
}.

Record Player : Type := mkPlayer {
  p_name : string;
  p_team : string;
  p_age : Z;
  p_rating : Z;
  p_position : string;
  p_stats : Stats
}.

Record Team : Type := mkTeam {
  t_name : string;
  league_position : Z;
  points : Z
}.

(** [data]: the dictionary with the keys ['teams'] and ['players']. *)
Record Data : Type := mkData {
  teams : list Team;
  players : list Player
}.

(* ================================================================= *)
(** ** TransferMarket.calculate_player_value *)

Definition calculate_player_value (player : Player) : result Z :=
  let base_value := p_rating player * 2000000 in
  scaled <- int_mul_float (Z.abs (26 - p_age player)) lit_0_05 ;;
  age_factor <- int_sub_float 1 scaled ;;
  let stats := p_stats player in
  per_90 <- int_truediv (minutes_played stats) 90 ;;
  minutes_term <- float_mul_int per_90 100000 ;;
  performance_factor <-
    int_add_float (goals stats * 500000 + assists stats * 300000) minutes_term ;;
  weighted <- int_mul_float base_value age_factor ;;
  int_of_float (fadd weighted performance_factor).

(** The formula in the words of the specification:
    [base * age_factor + performance] with
    [age_factor = 1 - 0.05 * |26 - age|]. *)
Definition value_formula (player : Player) : result float :=
  let stats := p_stats player in
  scaled <- float_mul_int lit_0_05 (Z.abs (26 - p_age player)) ;;
  age_factor <- int_sub_float 1 scaled ;;
  per_90 <- int_truediv (minutes_played stats) 90 ;;
  minutes_term <- float_mul_int per_90 100000 ;;
  performance <-
    int_add_float (goals stats * 500000 + assists stats * 300000) minutes_term ;;
  weighted <- int_mul_float (p_rating player * 2000000) age_factor ;;
  Ok (fadd weighted performance).

(** The value the specification states: the floor of the formula. *)
Definition specified_player_value (player : Player) : result Z :=
  v <- value_formula player ;; floor_of_float v.

(** The formula over the rationals, without any rounding. *)
Definition exact_value (player : Player) : Q :=
  let stats := p_stats player in
  (inject_Z (p_rating player * 2000000)
     * (1 - (5 # 100) * inject_Z (Z.abs (26 - p_age player)))
   + inject_Z (goals stats * 500000 + assists stats * 300000)
   + (inject_Z (minutes_played stats) / 90) * 100000)%Q.

(* ================================================================= *)
(** ** Names and lookups *)

(** [str.lower()] on an ASCII text: the letters A-Z are lowered, every
    other character is kept. Python lowers the letters outside ASCII too;
    names that hold such letters are outside the model. *)
Definition lower_ascii (c : ascii) : ascii :=
  let n := nat_of_ascii c in
  if ((65 <=? n) && (n <=? 90))%nat then ascii_of_nat (n + 32) else c.

Fixpoint lower (s : string) : string :=
  match s with
  | EmptyString => EmptyString
  | String c rest => String (lower_ascii c) (lower rest)
  end.

(** [a.lower() == b.lower()] *)
Definition same_name_ci (a b : string) : bool :=
  String.eqb (lower a) (lower b).

(** [next((p for p in data['players']
           if p['name'].lower() == player_name.lower()), None)] *)
Definition find_player (d : Data) (player_name : string) : option Player :=
  find (fun p => same_name_ci (p_name p) player_name) (players d).

(** [next((t for t in data['teams']
           if t['name'].lower() == team_name.lower()), None)] *)
Definition find_team (d : Data) (team_name : string) : option Team :=
  find (fun t => same_name_ci (t_name t) team_name) (teams d).

(** [[p for p in data['players'] if p['team'] == team_name]] *)
Definition team_players (d : Data) (team_name : string) : list Player :=
  filter (fun p => String.eqb (p_team p) team_name) (players d).

(** In-place mutation of the first record of a list that satisfies [f]:
    the object a [next(...)] lookup returned is the first match. *)
Fixpoint update_first {A : Type} (f : A -> bool) (g : A -> A) (l : list A)
  : list A :=
  match l with
  | [] => []
  | x :: rest => if f x then g x :: rest else x :: update_first f g rest
  end.

Definition set_team (new_team : string) (p : Player) : Player :=
  mkPlayer (p_name p) new_team (p_age p) (p_rating p) (p_position p)
           (p_stats p).

Definition set_stats (s : Stats) (p : Player) : Player :=
  mkPlayer (p_name p) (p_team p) (p_age p) (p_rating p) (p_position p) s.

Definition add_goal (p : Player) : Player :=
  let s := p_stats p in
  set_stats (mkStats (goals s + 1) (assists s) (minutes_played s)
                     (shots_on_target s)) p.

Definition add_assist (p : Player) : Player :=
  let s := p_stats p in
  set_stats (mkStats (goals s) (assists s + 1) (minutes_played s)
                     (shots_on_target s)) p.

(** [==] on two player dictionaries: equality of all the fields. *)
Definition stats_eqb (a b : Stats) : bool :=
  (goals a =? goals b) && (assists a =? assists b)
  && (minutes_played a =? minutes_played b)
  && (shots_on_target a =? shots_on_target b).

Definition player_eqb (a b : Player) : bool :=
  String.eqb (p_name a) (p_name b) && String.eqb (p_team a) (p_team b)
  && (p_age a =? p_age b) && (p_rating a =? p_rating b)
  && String.eqb (p_position a) (p_position b)
  && stats_eqb (p_stats a) (p_stats b).

(* ================================================================= *)
(** ** The objects of a session *)

Record TransferRecord : Type := mkTransfer {
  tr_player : string;
  from_team : string;
  to_team : string;
  fee : Z;
  tr_date : string
}.

Record MatchEvent : Type := mkEvent {
  minute : Z;
  ev_type : string;
  ev_team : string;
  scorer : string;
  assist : string
}.

Record MatchResult : Type := mkMatch {
  home_team : string;
  away_team : string;
  home_goals : Z;
  away_goals : Z;
  events : list MatchEvent;
  m_date : string
}.

(** The one [data] object the three engines share, and the history list
    each engine owns. *)
Record World : Type := mkWorld {
  data : Data;
  transfer_history : list TransferRecord;
  match_history : list MatchResult
}.

Definition with_players (w : World) (ps : list Player) : World :=
  mkWorld (mkData (teams (data w)) ps) (transfer_history w) (match_history w).

(* ================================================================= *)
(** ** TransferMarket.transfer_player *)

(** [today] is [datetime.now().strftime('%Y-%m-%d')]. *)
Definition transfer_player (today : string) (player_name new_team : string)
    (w : World) : result TransferRecord * World :=
  match find_player (data w) player_name with
  | None => (Raise (PlayerNotFound player_name), w)
  | Some player =>
      match find_team (data w) new_team with
      | None => (Raise (TeamNotFound new_team), w)
      | Some team =>
          let old_team := p_team player in
          let w1 :=
            with_players w
              (update_first (fun p => same_name_ci (p_name p) player_name)
                            (set_team new_team) (players (data w))) in
          let player := set_team new_team player in
          match calculate_player_value player with
          | Raise e => (Raise e, w1)
          | Ok transfer_fee =>
              let transfer_record :=
                mkTransfer (p_name player) old_team new_team transfer_fee
                           today in
              (Ok transfer_record,
               mkWorld (data w1) (transfer_history w1 ++ [transfer_record])
                       (match_history w1))
          end
      end
  end.

(* ================================================================= *)
(** ** MatchEngine.calculate_team_strength *)

Definition sum_Z (l : list Z) : Z := fold_left Z.add l 0.

Definition calculate_team_strength (d : Data) (team_name : string)
  : result float :=
  let team_players := team_players d team_name in
  match team_players with
  | [] => Raise (NoPlayersFound team_name)
  | _ :: _ =>
      let total_rating := sum_Z (map p_rating team_players) in
      int_truediv total_rating (Z.of_nat (List.length team_players))
  end.

(* ================================================================= *)
(** ** The random source *)

(** A run consumes raw draws from a finite prefix of the random sequence.
    [Starved] says that the prefix ended before the run did: the call needs
    more draws than it was given. *)
Inductive outcome (A : Type) : Type :=
| Done (a : A) (rest : list nat)
| Failed (e : exn)
| Starved.
Arguments Done {A} a rest.
Arguments Failed {A} e.
Arguments Starved {A}.

Definition Rand (A : Type) : Type := list nat -> outcome A.

Definition ret {A : Type} (a : A) : Rand A := fun ds => Done a ds.

Definition rbind {A B : Type} (m : Rand A) (k : A -> Rand B) : Rand B :=
  fun ds =>
    match m ds with
    | Done a rest => k a rest
    | Failed e => Failed e
    | Starved => Starved
    end.

Notation "x <~ m ;; k" := (rbind m (fun x => k))
  (at level 61, m at next level, right associativity).

(** [random.randint(lo, hi)] *)
Definition randint (lo hi : Z) : Rand Z :=
  fun ds =>
    match ds with
    | [] => Starved
    | d :: rest => Done (lo + Z.of_nat d mod (hi - lo + 1)) rest
    end.

(** The element of a non-empty sequence a raw draw selects. *)
Definition pick {A : Type} (l : list A) (default : A) (d : nat) : A :=
  nth (d mod List.length l) l default.

(** [random.choice(seq)] *)
Definition choice {A : Type} (l : list A) : Rand A :=
  fun ds =>
    match l with
    | [] => Failed IndexError
    | x :: _ =>
        match ds with
        | [] => Starved
        | d :: rest => Done (pick l x d) rest
        end
    end.

(* ================================================================= *)
(** ** MatchEngine.generate_match_events *)

(** [while assist == scorer: assist = random.choice(roster)] *)
Fixpoint redraw_assist (roster : list Player) (scorer assist : Player)
    (ds : list nat) {struct ds} : outcome Player :=
  if player_eqb assist scorer then
    match ds with
    | [] => Starved
    | d :: rest => redraw_assist roster scorer (pick roster scorer d) rest
    end
  else Done assist ds.

(** One iteration of a goal loop. *)
Definition goal_event (team_name : string) (roster : list Player)
  : Rand MatchEvent :=
  minute <~ randint 1 90 ;;
  scorer <~ choice roster ;;
  assist <~ choice roster ;;
  assist <~ redraw_assist roster scorer assist ;;
  ret (mkEvent minute "goal" team_name (p_name scorer) (p_name assist)).

(** [for _ in range(n): ... events.append({...})] *)
Fixpoint goal_events (n : nat) (team_name : string) (roster : list Player)
  : Rand (list MatchEvent) :=
  match n with
  | O => ret []
  | S n' =>
      ev <~ goal_event team_name roster ;;
      evs <~ goal_events n' team_name roster ;;
      ret (ev :: evs)
  end.

(** [events.sort(key=lambda x: x['minute'])]: the builtin sort is stable;
    it is modelled by the stable insertion sort. *)
Fixpoint insert_by_minute (e : MatchEvent) (l : list MatchEvent)
  : list MatchEvent :=
  match l with
  | [] => [e]
  | x :: rest =>
      if minute e <=? minute x then e :: x :: rest
      else x :: insert_by_minute e rest
  end.

Fixpoint sort_by_minute (l : list MatchEvent) : list MatchEvent :=
  match l with
  | [] => []
  | e :: rest => insert_by_minute e (sort_by_minute rest)
  end.

(** The events in the order the two loops append them. *)
Definition generated_events (d : Data) (home_team away_team : string)
    (home_goals away_goals : Z) : Rand (list MatchEvent) :=
  let home_players := team_players d home_team in
  let away_players := team_players d away_team in
  hs <~ goal_events (Z.to_nat home_goals) home_team home_players ;;
  aws <~ goal_events (Z.to_nat away_goals) away_team away_players ;;
  ret (hs ++ aws)%list.

Definition generate_match_events (d : Data) (home_team away_team : string)
    (home_goals away_goals : Z) : Rand (list MatchEvent) :=
  events <~ generated_events d home_team away_team home_goals away_goals ;;
  ret (sort_by_minute events).

(* ================================================================= *)
(** ** MatchEngine.update_stats *)

(** [next(p for p in data['players'] if p['name'] == name)], then the
    in-place update [g] of the record found. *)
Definition update_named (name : string) (g : Player -> Player)
    (ps : list Player) : result (list Player) :=
  match find (fun p => String.eqb (p_name p) name) ps with
  | None => Raise StopIteration
  | Some _ => Ok (update_first (fun p => String.eqb (p_name p) name) g ps)
  end.

(** The body of the loop for one event. The players are returned in both
    cases: an exception leaves the earlier increments in place. *)
Definition update_event (ev : MatchEvent) (ps : list Player)
  : result unit * list Player :=
  if String.eqb (ev_type ev) "goal" then
    match update_named (scorer ev) add_goal ps with
    | Raise e => (Raise e, ps)
    | Ok ps1 =>
        match update_named (assist ev) add_assist ps1 with
        | Raise e => (Raise e, ps1)
        | Ok ps2 => (Ok tt, ps2)
        end
    end
  else (Ok tt, ps).

Fixpoint update_events (evs : list MatchEvent) (ps : list Player)
  : result unit * list Player :=
  match evs with
  | [] => (Ok tt, ps)
  | ev :: rest =>
      match update_event ev ps with
      | (Ok _, ps1) => update_events rest ps1
      | (Raise e, ps1) => (Raise e, ps1)
      end
  end.

Definition update_stats (match_result : MatchResult) (w : World)
  : result unit * World :=
  let (r, ps) := update_events (events match_result) (players (data w)) in
  (r, with_players w ps).

(* ================================================================= *)
(** ** MatchEngine.simulate_match *)

Definition float_div_int (x : float) (b : Z) : result float :=
  y <- float_of_int b ;; float_truediv x y.

Definition lift {A : Type} (r : result A) : Rand A :=
  fun ds =>
    match r with
    | Ok a => Done a ds
    | Raise e => Failed e
    end.

Section Simulation.

(** [random.gauss(mu, sigma)]: the sample the generator derives from a
    raw draw. *)
Variable gauss_sample : float -> float -> nat -> float.

Definition gauss (mu sigma : float) : Rand float :=
  fun ds =>
    match ds with
    | [] => Starved
    | d :: rest => Done (gauss_sample mu sigma d) rest
    end.

(** [max(0, int(random.gauss(strength/20, 1)))] *)
Definition draw_goals (strength : float) : Rand Z :=
  mu <~ lift (float_div_int strength 20) ;;
  sigma <~ lift (float_of_int 1) ;;
  g <~ gauss mu sigma ;;
  n <~ lift (int_of_float g) ;;
  ret (Z.max 0 n).

(** Everything up to and including the construction of [match_result];
    nothing here writes to the shared data. *)
Definition prepare_match (today : string) (home_team away_team : string)
    (d : Data) : Rand MatchResult :=
  match find_team d home_team, find_team d away_team with
  | Some home, Some away =>
      home_strength <~ lift (calculate_team_strength d (t_name home)) ;;
      away_strength <~ lift (calculate_team_strength d (t_name away)) ;;
      let home_strength := fmul home_strength lit_1_1 in
      home_goals <~ draw_goals home_strength ;;
      away_goals <~ draw_goals away_strength ;;
      events <~ generate_match_events d (t_name home) (t_name away)
                                      home_goals away_goals ;;
      ret (mkMatch (t_name home) (t_name away) home_goals away_goals
                   events today)
  | _, _ => lift (Raise MatchTeamNotFound)
  end.

Definition simulate_match (today : string) (home_team away_team : string)
    (w : World) (ds : list nat) : outcome MatchResult * World :=
  match prepare_match today home_team away_team (data w) ds with
  | Done match_result rest =>
      let w1 := mkWorld (data w) (transfer_history w)
                        (match_history w ++ [match_result]) in
      match update_stats match_result w1 with
      | (Ok _, w2) => (Done match_result rest, w2)
      | (Raise e, w2) => (Failed e, w2)
      end
  | Failed e => (Failed e, w)
  | Starved => (Starved, w)
  end.

End Simulation.

(* ================================================================= *)
(** ** Analytics *)

(** A value that is an [int] on one path and a [float] on another. *)
Inductive number : Type :=
| Int (z : Z)
| Float (x : float).

Record Efficiency : Type := mkEfficiency {
  goals_per_90 : float;
  assists_per_90 : float;
  goal_contributions : Z;
  shots_conversion : number
}.

Definition calculate_player_efficiency (d : Data) (player_name : string)
  : result Efficiency :=
  match find_player d player_name with
  | None => Raise (PlayerNotFound player_name)
  | Some player =>
      let stats := p_stats player in
      let minutes := minutes_played stats in
      g <- int_truediv (goals stats) minutes ;;
      g90 <- float_mul_int g 90 ;;
      a <- int_truediv (assists stats) minutes ;;
      a90 <- float_mul_int a 90 ;;
      conv <- (if shots_on_target stats >? 0 then
                 c <- int_truediv (goals stats) (shots_on_target stats) ;;
                 c100 <- float_mul_int c 100 ;;
                 Ok (Float c100)
               else Ok (Int 0)) ;;
      Ok (mkEfficiency g90 a90 (goals stats + assists stats) conv)
  end.

(** [max(seq, key=...)]: the first element with the largest key. *)
Fixpoint max_from {A : Type} (key : A -> Z) (best : A) (l : list A) : A :=
  match l with
  | [] => best
  | x :: rest =>
      if key x >? key best then max_from key x rest
      else max_from key best rest
  end.

Definition py_max {A : Type} (key : A -> Z) (l : list A) : result A :=
  match l with
  | [] => Raise MaxEmptySequence
  | x :: rest => Ok (max_from key x rest)
  end.

Record TeamReport : Type := mkReport {
  team_name : string;
  r_league_position : Z;
  r_points : Z;
  top_scorer : Player;
  top_assister : Player;
  squad_age_average : float;
  squad_rating_average : float
}.

Definition generate_team_report (d : Data) (name : string)
  : result TeamReport :=
  match find_team d name with
  | None => Raise (TeamNotFound name)
  | Some team =>
      let players := team_players d (t_name team) in
      top_s <- py_max (fun p => goals (p_stats p)) players ;;
      top_a <- py_max (fun p => assists (p_stats p)) players ;;
      age_avg <- int_truediv (sum_Z (map p_age players))
                             (Z.of_nat (List.length players)) ;;
      rating_avg <- int_truediv (sum_Z (map p_rating players))
                                (Z.of_nat (List.length players)) ;;
      Ok (mkReport (t_name team) (league_position team) (points team)
                   top_s top_a age_avg rating_avg)
  end.

(* ================================================================= *)
(** ** Sample league *)

Module Sample.

Definition stats0 : Stats := mkStats 0 0 0 0.

Definition alice : Player :=
  mkPlayer "Alice" "Red FC" 24 80 "FW" (mkStats 2 1 900 4).
Definition bob : Player :=
  mkPlayer "Bob" "Red FC" 27 90 "MF" (mkStats 5 3 1800 10).
Definition carol : Player :=
  mkPlayer "Carol" "Blue FC" 30 70 "DF" (mkStats 0 0 0 0).
Definition dave : Player :=
  mkPlayer "Dave" "Blue FC" 22 75 "GK" (mkStats 0 2 450 0).
(** Old enough for a negative age factor. *)
Definition veteran : Player :=
  mkPlayer "Vet" "Grey FC" 66 1 "DF" (mkStats 0 0 1 0).

Definition red : Team := mkTeam "Red FC" 1 30.
Definition blue : Team := mkTeam "Blue FC" 2 27.
Definition grey : Team := mkTeam "Grey FC" 3 10.
Definition ghost : Team := mkTeam "Ghost FC" 4 0.

Definition league : Data :=
  mkData [red; blue; grey; ghost] [alice; bob; carol; dave; veteran].

Definition world : World := mkWorld league [] [].



Definition today : string := "2024-05-01".

(** Rating 80 at age 33, nothing played: the formula is 104,000,000
    exactly. *)
Definition seasoned : Player :=
  mkPlayer "Sid" "Grey FC" 33 80 "MF" (mkStats 0 0 0 0).

(** A roster on which two records carry one name. *)
Definition sam_junior : Player :=
  mkPlayer "Sam" "Twins FC" 20 70 "FW" (mkStats 0 0 0 0).
Definition sam_senior : Player :=
  mkPlayer "Sam" "Twins FC" 30 70 "FW" (mkStats 0 0 0 0).
Definition tom : Player :=
  mkPlayer "Tom" "Twins FC" 25 70 "MF" (mkStats 0 0 0 0).

Definition twins_league : Data :=
  mkData [mkTeam "Twins FC" 1 0; red]
         [sam_junior; sam_senior; tom; alice; bob].

End Sample.

(* ================================================================= *)
(** ** Vocabulary of the specification *)

(** The failures the specification calls [NotFound]. *)
Definition not_found (e : exn) : Prop :=
  match e with
  | PlayerNotFound _ | TeamNotFound _ | MatchTeamNotFound => True
  | _ => False
  end.

(** The failures of the arithmetic. *)
Definition numeric_error (e : exn) : Prop :=
  match e with
  | ZeroDivisionError | OverflowError | NaNToInteger => True
  | _ => False
  end.


(** The order of the events of a match. *)
Definition by_minute (a b : MatchEvent) : Prop := minute a <= minute b.

(** The events played in minute [m], in the order of the list. *)
Definition in_minute (m : Z) (l : list MatchEvent) : list MatchEvent :=
  filter (fun e => minute e =? m) l.

(** A goal of [team_name] attributed to two players of [roster] that
    differ as records. *)
Definition attributed (team_name : string) (roster : list Player)
    (e : MatchEvent) : Prop :=
  1 <= minute e <= 90
  /\ ev_type e = "goal" /\ ev_team e = team_name
  /\ exists s a, In s roster /\ In a roster /\ a <> s
                 /\ scorer e = p_name s /\ assist e = p_name a.

(** The name identifies the player: the uniqueness of names the data
    model states. *)
Definition names_identify (l : list Player) : Prop :=
  forall p q, In p l -> In q l -> p_name p = p_name q -> p = q.

(** A run reads a prefix of the draws and nothing else: the same prefix
    gives the same result whatever follows it. *)
Definition reads_prefix {A : Type} (m : Rand A) : Prop :=
  forall ds a rest,
    m ds = Done a rest ->
    exists used,
      ds = (used ++ rest)%list
      /\ forall tail, m (used ++ tail)%list = Done a tail.

(** The sum of one statistic over all the players. *)
Definition total (f : Stats -> Z) (ps : list Player) : Z :=
  fold_right (fun p acc => f (p_stats p) + acc) 0 ps.

(** A player with the two tallies of [update_stats] blanked: everything
    the update must leave alone. *)
Definition without_tallies (p : Player) : Player :=
  set_stats (mkStats 0 0 (minutes_played (p_stats p))
                     (shots_on_target (p_stats p))) p.

(** A goal event whose scorer and assist are names of players. *)
Definition resolvable (ps : list Player) (e : MatchEvent) : Prop :=
  ev_type e = "goal"
  /\ In (scorer e) (map p_name ps) /\ In (assist e) (map p_name ps).

(* ================================================================= *)
(** ** Further vocabulary *)

Definition set_age (a : Z) (p : Player) : Player :=
  mkPlayer (p_name p) (p_team p) a (p_rating p) (p_position p) (p_stats p).

(** [1 - (abs(26 - age) * 0.05)], the second line of
    [calculate_player_value]. *)
Definition age_factor (age : Z) : result float :=
  scaled <- int_mul_float (Z.abs (26 - age)) lit_0_05 ;;
  int_sub_float 1 scaled.

(** [x < y] on two floats. *)
Definition flt (x y : float) : bool := SFltb x y.

(** 1.0 *)
Definition float_one : float := S754_finite false 4503599627370496 (-52).

(** The age factor of [age] is a float below that of [peak]. *)
Definition factor_below (peak age : Z) : bool :=
  match age_factor age, age_factor peak with
  | Ok x, Ok y => flt x y
  | _, _ => false
  end.

(** A rating no float can hold. *)
Definition colossal_rating : Z := 10 ^ 400.

Definition colossus : Player :=
  mkPlayer "Colossus" "Red FC" 26 colossal_rating "GK" (mkStats 0 0 0 0).

Definition colossus_world : World :=
  mkWorld (mkData [Sample.red; Sample.blue] [Sample.alice; colossus]) [] [].

(** [event['type'] == 'goal'] *)
Definition is_goal (e : MatchEvent) : bool := String.eqb (ev_type e) "goal".

(** No tally of [p'] is below the tally of [p]. *)
Definition tallies_grow (p p' : Player) : Prop :=
  goals (p_stats p) <= goals (p_stats p')
  /\ assists (p_stats p) <= assists (p_stats p').

(** A generator for the proofs by example: the raw draw itself, as a
    float. *)
Definition draw_as_sample (mu sigma : float) (d : nat) : float :=
  binary_normalize prec emax (Z.of_nat d) 0 false.

(** The number of events of [mr] scored by the team named [t]. *)
Definition goals_of (t : string) (mr : MatchResult) : Z :=
  Z.of_nat (List.length
              (filter (fun e => String.eqb (ev_team e) t) (events mr))).

(** The failures [simulate_match] can reach. *)
Definition simulation_failure (e : exn) : Prop :=
  match e with
  | MatchTeamNotFound | NoPlayersFound _ | OverflowError | NaNToInteger =>
      True
  | _ => False
  end.


(* ================================================================= *)
(** ** The player search of the main menu *)

(** A string of the model stands for a Python string of ASCII characters:
    only on those do [lower] and [isdigit] read as [str.lower()] and
    [str.isdigit()]. *)
Definition is_ascii_char (c : ascii) : bool := (nat_of_ascii c <? 128)%nat.

Fixpoint ascii_text (s : string) : bool :=
  match s with
  | EmptyString => true
  | String c rest => is_ascii_char c && ascii_text rest
  end.

Definition ascii_player (p : Player) : bool :=
  ascii_text (p_name p) && ascii_text (p_team p)
  && ascii_text (p_position p).

(** [not s], on a string. *)
Definition is_blank (s : string) : bool :=
  match s with
  | EmptyString => true
  | String _ _ => false
  end.

(** [needle in hay], on two strings. *)
Fixpoint contains (needle hay : string) : bool :=
  String.prefix needle hay
  || match hay with
     | EmptyString => false
     | String _ rest => contains needle rest
     end.

Definition is_digit_char (c : ascii) : bool :=
  let n := nat_of_ascii c in ((48 <=? n) && (n <=? 57))%nat.

Definition digit_of (c : ascii) : Z := Z.of_nat (nat_of_ascii c) - 48.

Fixpoint all_digits (s : string) : bool :=
  match s with
  | EmptyString => true
  | String c rest => is_digit_char c && all_digits rest
  end.

(** [s.isdigit()], on an ASCII text. *)
Definition isdigit (s : string) : bool := negb (is_blank s) && all_digits s.

(** The value [int(s)] returns for a string of digits, read from the
    left. *)
Fixpoint digits_value (acc : Z) (s : string) : Z :=
  match s with
  | EmptyString => acc
  | String c rest => digits_value (10 * acc + digit_of c) rest
  end.

(** The decimal reading of a non-empty string of digits: the last digit
    counts once, what stands before it ten times. *)
Inductive reads_as : string -> Z -> Prop :=
| reads_digit (c : ascii) :
    is_digit_char c = true -> reads_as (String c EmptyString) (digit_of c)
| reads_more (s : string) (m : Z) (c : ascii) :
    reads_as s m -> is_digit_char c = true ->
    reads_as (s ++ String c EmptyString) (10 * m + digit_of c).

(** What the line
    [min_rating = int(rating_str) if rating_str.isdigit() else None]
    leaves: [None], an [int], or the [ValueError] with which [int()]
    refuses a string of more digits than the interpreter allows. *)
Inductive rating_answer : Type :=
| NoMinimum
| Minimum (m : Z)
| Refused.

(** The search prints its results, or the [ValueError] of [int()] ends
    [main] through its handler. *)
Inductive search_outcome : Type :=
| Results (l : list Player)
| IntValueError.

(** [not min_rating or p['rating'] >= min_rating] *)
Definition rating_passes (min_rating : option Z) (p : Player) : bool :=
  match min_rating with
  | None => true
  | Some m => (m =? 0) || (m <=? p_rating p)
  end.

(** The condition of the list comprehension. *)
Definition search_matches (name team position : string)
    (min_rating : option Z) (p : Player) : bool :=
  (is_blank name || contains (lower name) (lower (p_name p)))
  && (is_blank team || contains (lower team) (lower (p_team p)))
  && (is_blank position
      || String.eqb (lower position) (lower (p_position p)))
  && rating_passes min_rating p.

Section Search.

(** [sys.get_int_max_str_digits()]: the longest digit string [int()]
    converts, 4300 unless the interpreter is configured otherwise; 0
    switches the limit off. *)
Variable int_max_str_digits : nat.

(** [int(s)] raises on a digit string longer than the limit; strings of
    up to 640 digits are never checked. *)
Definition int_refuses (s : string) : bool :=
  (negb (int_max_str_digits =? 0) && (640 <? String.length s)
   && (int_max_str_digits <? String.length s))%nat.

Definition min_rating_of (rating_str : string) : rating_answer :=
  if isdigit rating_str then
    if int_refuses rating_str then Refused
    else Minimum (digits_value 0 rating_str)
  else NoMinimum.

(** [results = [p for p in data['players'] if ...]], with the four
    answers typed at the prompts. *)
Definition search_players (name team position rating_str : string)
    (d : Data) : search_outcome :=
  match min_rating_of rating_str with
  | Refused => IntValueError
  | NoMinimum =>
      Results (filter (search_matches name team position None) (players d))
  | Minimum m =>
      Results (filter (search_matches name team position (Some m))
                      (players d))
  end.

End Search.

(** [s] has more digits than [int()] converts under the limit [limit]. *)
Definition too_long (limit : nat) (s : string) : Prop :=
  limit <> 0%nat
  /\ (640 < String.length s)%nat /\ (limit < String.length s)%nat.

(** A search run on the results of another. *)
Definition then_search (o : search_outcome)
    (k : list Player -> search_outcome) : search_outcome :=
  match o with
  | Results l => k l
  | IntValueError => IntValueError
  end.

(** [needle] occurs in [hay]. *)
Definition occurs_in (needle hay : string) : Prop :=
  exists before after, hay = before ++ needle ++ after.
(* ================================================================= *)
(** * Properties *)

(** ** Floating-point helpers *)

Lemma fmul_comm (x y : float) : fmul x y = fmul y x.
Proof.
  unfold fmul, SFmul.
  destruct x as [sx|sx| |sx mx ex], y as [sy|sy| |sy my ey];
    try reflexivity; rewrite (xorb_comm sx sy); try reflexivity.
  now rewrite (Pos.mul_comm mx my), (Z.add_comm ex ey).
Qed.

(** The literals are the doubles nearest to 1/20 and to 11/10. *)
Lemma literals_correctly_rounded :
  int_truediv 1 20 = Ok lit_0_05 /\ int_truediv 11 10 = Ok lit_1_1.
Proof. split; vm_compute; reflexivity. Qed.

Lemma shiftl_opp_floor (m : positive) (e : Z) :
  Z.shiftl (Zneg m) e = - Z.shiftl (Zpos m) e
  \/ Z.shiftl (Zneg m) e = - Z.shiftl (Zpos m) e - 1.
Proof.
  destruct (Z.le_gt_cases 0 e) as [He | He].
  - left. rewrite !Z.shiftl_mul_pow2 by assumption.
    change (Zneg m) with (- Zpos m). lia.
  - rewrite !Z.shiftl_div_pow2 by lia.
    assert (Hp : 0 < 2 ^ (- e)) by (apply Z.pow_pos_nonneg; lia).
    change (Zneg m) with (- Zpos m).
    destruct (Z.eq_dec (Zpos m mod 2 ^ (- e)) 0) as [Hz | Hnz].
    + left. apply Z.div_opp_l_z; [lia | assumption].
    + right. apply Z.div_opp_l_nz; [lia | assumption].
Qed.

(** [int()] against [floor]: equal on a value whose sign bit is clear,
    and never more than one apart. *)
Lemma int_of_float_vs_floor (v : float) (z : Z) :
  int_of_float v = Ok z ->
  (nonnegative v = true -> floor_of_float v = Ok z)
  /\ (floor_of_float v = Ok z \/ floor_of_float v = Ok (z - 1)).
Proof.
  destruct v as [s|s| |s m e]; simpl; try discriminate;
    intros H; injection H as <-.
  - split; auto.
  - destruct s; simpl.
    + split; [discriminate|].
      destruct (shiftl_opp_floor m e) as [-> | ->]; auto.
    + split; auto.
Qed.

Lemma float_mul_int_comm (x : float) (b : Z) :
  float_mul_int x b = int_mul_float b x.
Proof.
  unfold float_mul_int, int_mul_float.
  destruct (float_of_int b) as [y|e]; cbn [bind]; [|reflexivity].
  now rewrite fmul_comm.
Qed.

Lemma value_formula_int (player : Player) :
  calculate_player_value player
  = (v <- value_formula player ;; int_of_float v).
Proof.
  unfold calculate_player_value, value_formula.
  rewrite (float_mul_int_comm lit_0_05).
  destruct (int_mul_float (Z.abs (26 - p_age player)) lit_0_05) as [x|e];
    cbn [bind]; [|reflexivity].
  destruct (int_sub_float 1 x); cbn [bind]; [|reflexivity].
  destruct (int_truediv _ 90); cbn [bind]; [|reflexivity].
  destruct (float_mul_int _ 100000); cbn [bind]; [|reflexivity].
  destruct (int_add_float _ _); cbn [bind]; [|reflexivity].
  destruct (int_mul_float _ _); cbn [bind]; reflexivity.
Qed.

(* ================================================================= *)
(** ** C1: the market value *)

(** C1, as stated, fails: the value is not the floor of the formula. For
    the veteran (rating 1, age 66, one minute played) the formula is
    about -1998888.89; the code returns -1998888, the floor is -1998889,
    in binary64 and over the rationals alike. *)
Lemma player_value_is_not_floor :
  calculate_player_value Sample.veteran = Ok (-1998888)
  /\ specified_player_value Sample.veteran = Ok (-1998889)
  /\ Qfloor (exact_value Sample.veteran) = -1998889
  /\ calculate_player_value Sample.veteran
     <> specified_player_value Sample.veteran.
Proof.
  repeat split; try (vm_compute; reflexivity).
  vm_compute. discriminate.
Qed.

(** The rounding of binary64 shows in the result: at rating 80 and age 33
    the age factor is computed as 0.6499999999999999, and the value comes
    out one below the 104,000,000 of the exact formula. *)
Lemma player_value_rounding :
  calculate_player_value Sample.seasoned = Ok 103999999
  /\ Qfloor (exact_value Sample.seasoned) = 104000000.
Proof. split; vm_compute; reflexivity. Qed.

(** C1 (amended): [calculate_player_value] returns the binary64 value of
    the formula truncated toward zero by [int()]. That is the floor when
    the value is not negative and at most one above the floor otherwise;
    the age factor is not clamped, so the result can be negative; the
    result depends on rating, age and stats only, and the function takes
    and returns no part of the shared state. *)
Theorem calculate_player_value_truncates (player : Player) :
  calculate_player_value player
  = (v <- value_formula player ;; int_of_float v)
  /\ (forall v z,
        value_formula player = Ok v -> int_of_float v = Ok z ->
        calculate_player_value player = Ok z
        /\ (nonnegative v = true -> specified_player_value player = Ok z)
        /\ (specified_player_value player = Ok z
            \/ specified_player_value player = Ok (z - 1)))
  /\ (exists old z, calculate_player_value old = Ok z /\ z < 0)
  /\ (forall other,
        p_rating other = p_rating player -> p_age other = p_age player ->
        p_stats other = p_stats player ->
        calculate_player_value other = calculate_player_value player).
Proof.
  split; [apply value_formula_int|].
  split.
  - intros v z Hv Hz.
    rewrite value_formula_int. unfold specified_player_value.
    rewrite Hv. cbn [bind].
    destruct (int_of_float_vs_floor v z Hz) as [Hnn Hfl]. auto.
  - split.
    + exists Sample.veteran, (-1998888). split; [vm_compute; reflexivity|lia].
    + intros other Hr Ha Hs. unfold calculate_player_value.
      now rewrite Hr, Ha, Hs.
Qed.

Lemma calculate_player_value_truncates_witness :
  calculate_player_value Sample.bob = Ok 176400000
  /\ specified_player_value Sample.bob = Ok 176400000.
Proof.
  destruct (calculate_player_value_truncates Sample.bob)
    as (_ & H & _).
  destruct (H (S754_finite false 5919001804800000 (-25)) 176400000)
    as (Hv & Hf & _).
  - vm_compute; reflexivity.
  - vm_compute; reflexivity.
  - split; [exact Hv | apply Hf; reflexivity].
Defined.

(* ================================================================= *)
(** ** Lists, names and lookups *)

Lemma lower_ascii_idempotent (c : ascii) :
  lower_ascii (lower_ascii c) = lower_ascii c.
Proof.
  destruct c as [[] [] [] [] [] [] [] []]; reflexivity.
Qed.

Lemma lower_idempotent (s : string) : lower (lower s) = lower s.
Proof.
  induction s as [|c s IH]; simpl; [reflexivity|].
  now rewrite lower_ascii_idempotent, IH.
Qed.

Lemma same_name_ci_spec (a b : string) :
  same_name_ci a b = true <-> lower a = lower b.
Proof. unfold same_name_ci. apply String.eqb_eq. Qed.

(** A lookup depends on the lowered spelling of the name only. *)
Lemma find_team_case_insensitive (d : Data) (n n' : string) :
  lower n = lower n' -> find_team d n = find_team d n'.
Proof.
  intros H. unfold find_team, same_name_ci. now rewrite H.
Qed.



Lemma team_players_spec (d : Data) (t : string) (p : Player) :
  In p (team_players d t) <-> In p (players d) /\ p_team p = t.
Proof.
  unfold team_players. rewrite filter_In. now rewrite String.eqb_eq.
Qed.

Section UpdateFirst.

Context {A : Type} (f : A -> bool) (g : A -> A).

Lemma update_first_length (l : list A) :
  List.length (update_first f g l) = List.length l.
Proof.
  induction l as [|x l IH]; simpl; [reflexivity|].
  destruct (f x); simpl; congruence.
Qed.

Lemma update_first_none (l : list A) :
  find f l = None -> update_first f g l = l.
Proof.
  induction l as [|x l IH]; simpl; [reflexivity|].
  destruct (f x); [discriminate|]. intros H. now rewrite IH.
Qed.

(** The record [find] returns is the one [update_first] rewrites. *)
Lemma update_first_split (l : list A) (x : A) :
  find f l = Some x ->
  exists l1 l2,
    l = (l1 ++ x :: l2)%list
    /\ update_first f g l = (l1 ++ g x :: l2)%list
    /\ forallb (fun y => negb (f y)) l1 = true.
Proof.
  induction l as [|y l IH]; simpl; [discriminate|].
  destruct (f y) eqn:Hy.
  - intros H. injection H as <-. now exists [], l.
  - intros H. destruct (IH H) as (l1 & l2 & -> & -> & Hl1).
    exists (y :: l1), l2. simpl. now rewrite Hy, Hl1.
Qed.

Lemma find_update_first (l : list A) (x : A) :
  find f l = Some x -> f (g x) = true ->
  find f (update_first f g l) = Some (g x).
Proof.
  induction l as [|y l IH]; simpl; [discriminate|].
  destruct (f y) eqn:Hy.
  - intros H Hg. injection H as <-. simpl. now rewrite Hg.
  - intros H Hg. simpl. rewrite Hy. now apply IH.
Qed.

End UpdateFirst.

(* ================================================================= *)
(** ** The error classes *)

Lemma finite_or_overflow_error (x : float) (e : exn) :
  finite_or_overflow x = Raise e -> numeric_error e.
Proof. destruct x; simpl; try discriminate. now intros [= <-]. Qed.

Lemma float_of_int_error (z : Z) (e : exn) :
  float_of_int z = Raise e -> numeric_error e.
Proof. apply finite_or_overflow_error. Qed.

Lemma int_truediv_error (a b : Z) (e : exn) :
  int_truediv a b = Raise e -> numeric_error e.
Proof.
  unfold int_truediv. destruct (b =? 0).
  - now intros [= <-].
  - apply finite_or_overflow_error.
Qed.

Lemma int_of_float_error (x : float) (e : exn) :
  int_of_float x = Raise e -> numeric_error e.
Proof. destruct x; simpl; try discriminate; now intros [= <-]. Qed.

Lemma mixed_error (op : float -> float -> float) (a : Z) (y : float)
    (e : exn) :
  (x <- float_of_int a ;; Ok (op x y)) = Raise e -> numeric_error e.
Proof.
  destruct (float_of_int a) eqn:H; cbn [bind]; [discriminate|].
  intros [= <-]. now apply float_of_int_error in H.
Qed.

Lemma float_mul_int_error (x : float) (b : Z) (e : exn) :
  float_mul_int x b = Raise e -> numeric_error e.
Proof.
  unfold float_mul_int.
  destruct (float_of_int b) eqn:H; cbn [bind]; [discriminate|].
  intros [= <-]. now apply float_of_int_error in H.
Qed.

Ltac numeric_step H :=
  match type of H with
  | bind ?r _ = Raise _ =>
      let E := fresh "E" in
      destruct r eqn:E; cbn [bind] in H;
      [ | injection H as <-;
          first [ now apply mixed_error in E
                | now apply float_mul_int_error in E
                | now apply int_truediv_error in E ] ]
  end.

(** The valuation fails on the arithmetic only. *)
Lemma calculate_player_value_error (p : Player) (e : exn) :
  calculate_player_value p = Raise e -> numeric_error e.
Proof.
  unfold calculate_player_value, int_mul_float, int_sub_float, int_add_float.
  intros H. do 6 numeric_step H.
  now apply int_of_float_error in H.
Qed.

Lemma calculate_player_value_ignores_team (new_team : string) (p : Player) :
  calculate_player_value (set_team new_team p) = calculate_player_value p.
Proof. reflexivity. Qed.

(* ================================================================= *)
(** ** C2, C5: transfers *)

(** What a transfer does once both lookups succeed and the fee is
    computed: the fee is the value of the player as found, the record is
    appended and returned, and the team written into the player is the
    argument [new_team] itself. *)
Lemma transfer_player_success (today player_name new_team : string)
    (w : World) (p : Player) (t : Team) (price : Z) :
  find_player (data w) player_name = Some p ->
  find_team (data w) new_team = Some t ->
  calculate_player_value p = Ok price ->
  let record := mkTransfer (p_name p) (p_team p) new_team price today in
  transfer_player today player_name new_team w
  = (Ok record,
     mkWorld
       (mkData (teams (data w))
          (update_first (fun q => same_name_ci (p_name q) player_name)
                        (set_team new_team) (players (data w))))
       (transfer_history w ++ [record]) (match_history w)).
Proof.
  intros Hp Ht Hv. unfold transfer_player. rewrite Hp, Ht.
  rewrite calculate_player_value_ignores_team, Hv. reflexivity.
Qed.

(** C2, at the failing input: Alice is transferred to the team stored as
    "Blue FC" under the spelling "blue fc". The fee is her value before
    the transfer and the record is appended and returned, but her [team]
    field becomes the caller's "blue fc", not the canonical "Blue FC", and
    she is on the roster of no team of the league. *)
Theorem transfer_player_keeps_caller_spelling :
  let w' := snd (transfer_player Sample.today "alice" "blue fc" Sample.world) in
  let record := mkTransfer "Alice" "Red FC" "blue fc" 146300000 Sample.today in
  find_team Sample.league "blue fc" = Some Sample.blue
  /\ calculate_player_value Sample.alice = Ok 146300000
  /\ fst (transfer_player Sample.today "alice" "blue fc" Sample.world)
     = Ok record
  /\ transfer_history w' = [record]
  /\ find_player (data w') "Alice"
     = Some (set_team "blue fc" Sample.alice)
  /\ "blue fc" <> t_name Sample.blue
  /\ team_players (data w') (t_name Sample.blue) = [Sample.carol; Sample.dave]
  /\ Forall (fun t => team_players (data w') (t_name t)
                      = filter (fun p => negb (player_eqb p Sample.alice))
                               (team_players Sample.league (t_name t)))
            (teams (data w')).
Proof.
  cbv zeta. repeat split; try (vm_compute; reflexivity).
  - discriminate.
  - match goal with
    | |- Forall ?P ?l =>
        let l' := eval vm_compute in l in change (Forall P l')
    end.
    repeat (apply Forall_cons; [vm_compute; reflexivity|]).
    apply Forall_nil.
Qed.

(** C5: a transfer that fails with [NotFound] leaves the world as it was:
    no player, no team and no history entry changes. A missed player
    lookup and a missed team lookup both fail that way. *)
Theorem transfer_player_atomic_on_not_found
    (today player_name new_team : string) (w : World) :
  (find_player (data w) player_name = None ->
   transfer_player today player_name new_team w
   = (Raise (PlayerNotFound player_name), w))
  /\ (forall p, find_player (data w) player_name = Some p ->
      find_team (data w) new_team = None ->
      transfer_player today player_name new_team w
      = (Raise (TeamNotFound new_team), w))
  /\ (forall e w',
      transfer_player today player_name new_team w = (Raise e, w') ->
      not_found e ->
      w' = w
      /\ (find_player (data w) player_name = None
          \/ find_team (data w) new_team = None)).
Proof.
  unfold transfer_player. split; [|split].
  - now intros ->.
  - now intros p -> ->.
  - intros e w'.
    destruct (find_player (data w) player_name) as [p|];
      [|intros [= _ <-]; auto].
    destruct (find_team (data w) new_team) as [t|];
      [|intros [= _ <-]; auto].
    destruct (calculate_player_value (set_team new_team p)) as [v|e0] eqn:Hv;
      [discriminate|].
    intros [= <- _] Hnf. apply calculate_player_value_error in Hv.
    destruct e0; contradiction.
Qed.

Lemma transfer_player_atomic_on_not_found_witness :
  transfer_player Sample.today "Zed" "Red FC" Sample.world
  = (Raise (PlayerNotFound "Zed"), Sample.world)
  /\ transfer_player Sample.today "Alice" "Green FC" Sample.world
     = (Raise (TeamNotFound "Green FC"), Sample.world).
Proof.
  destruct (transfer_player_atomic_on_not_found
              Sample.today "Zed" "Red FC" Sample.world) as (H1 & _ & _).
  destruct (transfer_player_atomic_on_not_found
              Sample.today "Alice" "Green FC" Sample.world) as (_ & H2 & _).
  split.
  - apply H1. reflexivity.
  - apply (H2 Sample.alice); reflexivity.
Defined.

(* ================================================================= *)
(** ** C10: rosters are filtered by the exact team string *)






(* ================================================================= *)
(** ** C4: empty rosters *)

Lemma strength_no_players (d : Data) (t : string) :
  team_players d t = [] ->
  calculate_team_strength d t = Raise (NoPlayersFound t).
Proof. unfold calculate_team_strength. now intros ->. Qed.

(** On a roster that is not empty the strength is the sum of the ratings
    divided by their number. *)
Lemma strength_is_mean (d : Data) (t : string) :
  team_players d t <> [] ->
  calculate_team_strength d t
  = int_truediv (sum_Z (map p_rating (team_players d t)))
                (Z.of_nat (List.length (team_players d t))).
Proof.
  unfold calculate_team_strength.
  destruct (team_players d t); [contradiction|reflexivity].
Qed.

(** Ratings 70, 80, 90 give 80.0; ratings 80, 90 give 85.0. *)
Lemma strength_examples :
  int_truediv (sum_Z [70; 80; 90]) 3 = float_of_int 80
  /\ calculate_team_strength Sample.league "Red FC"
     = int_truediv 85 1.
Proof. split; vm_compute; reflexivity. Qed.

Lemma report_team_not_found (d : Data) (n : string) :
  find_team d n = None ->
  generate_team_report d n = Raise (TeamNotFound n).
Proof. unfold generate_team_report. now intros ->. Qed.


(** C4, at the failing input: "Ghost FC" is a team of the league without a
    player. [calculate_team_strength] raises its own [NoPlayersFound];
    [generate_team_report] finds the team and then fails inside the
    builtin [max] on the empty roster. *)
Theorem team_report_on_empty_roster_fails_in_max :
  find_team Sample.league "Ghost FC" = Some Sample.ghost
  /\ team_players Sample.league "Ghost FC" = []
  /\ calculate_team_strength Sample.league "Ghost FC"
     = Raise (NoPlayersFound "Ghost FC")
  /\ generate_team_report Sample.league "Nowhere FC"
     = Raise (TeamNotFound "Nowhere FC")
  /\ generate_team_report Sample.league "Ghost FC" = Raise MaxEmptySequence.
Proof. repeat split; vm_compute; reflexivity. Qed.

(* ================================================================= *)
(** ** C9: player efficiency *)

Lemma int_truediv_nonzero_error (a b : Z) (e : exn) :
  b <> 0 -> int_truediv a b = Raise e -> e = OverflowError.
Proof.
  unfold int_truediv. intros Hb. apply Z.eqb_neq in Hb. rewrite Hb.
  destruct (fdiv _ _); simpl; try discriminate. now intros [= <-].
Qed.

(** A quotient of two [int]s that is returned is not an infinity. *)
Lemma int_truediv_not_infinite (a b : Z) (x : float) (s : bool) :
  int_truediv a b = Ok x -> x <> S754_infinity s.
Proof.
  unfold int_truediv. destruct (b =? 0); [discriminate|].
  destruct (fdiv (exact_operand a) (exact_operand b));
    simpl; try discriminate; intros [= <-]; discriminate.
Qed.

Lemma float_mul_int_only_overflows (x : float) (b : Z) (e : exn) :
  float_mul_int x b = Raise e -> e = OverflowError.
Proof.
  unfold float_mul_int, float_of_int.
  destruct (binary_normalize prec emax b 0 false); cbn; try discriminate.
  now intros [= <-].
Qed.



(* ================================================================= *)
(** ** The stable sort *)

Lemma insert_by_minute_perm (e : MatchEvent) (l : list MatchEvent) :
  Permutation (e :: l) (insert_by_minute e l).
Proof.
  induction l as [|x l IH]; simpl; [reflexivity|].
  destruct (minute e <=? minute x); [reflexivity|].
  rewrite perm_swap. now apply perm_skip.
Qed.

Lemma sort_by_minute_perm (l : list MatchEvent) :
  Permutation l (sort_by_minute l).
Proof.
  induction l as [|e l IH]; simpl; [reflexivity|].
  rewrite <- insert_by_minute_perm. now apply perm_skip.
Qed.

Lemma insert_by_minute_hd (e x : MatchEvent) (l : list MatchEvent) :
  minute x <= minute e -> HdRel by_minute x l ->
  HdRel by_minute x (insert_by_minute e l).
Proof.
  intros Hxe Hl. destruct l as [|y l]; simpl.
  - now constructor.
  - destruct (minute e <=? minute y); constructor; trivial.
    now inversion Hl.
Qed.

Lemma insert_by_minute_sorted (e : MatchEvent) (l : list MatchEvent) :
  Sorted by_minute l -> Sorted by_minute (insert_by_minute e l).
Proof.
  induction 1 as [|x l Hs IH Hhd]; simpl.
  - repeat constructor.
  - destruct (minute e <=? minute x) eqn:Hle.
    + apply Z.leb_le in Hle. repeat constructor; assumption.
    + apply Z.leb_gt in Hle. constructor; [assumption|].
      apply insert_by_minute_hd; [lia|assumption].
Qed.

Lemma sort_by_minute_sorted (l : list MatchEvent) :
  Sorted by_minute (sort_by_minute l).
Proof.
  induction l as [|e l IH]; simpl; [constructor|].
  now apply insert_by_minute_sorted.
Qed.

Lemma insert_by_minute_stable (m : Z) (e : MatchEvent) (l : list MatchEvent) :
  in_minute m (insert_by_minute e l) = in_minute m (e :: l).
Proof.
  unfold in_minute. induction l as [|x l IH]; [reflexivity|].
  cbn [insert_by_minute]. destruct (minute e <=? minute x) eqn:Hle;
    [reflexivity|].
  apply Z.leb_gt in Hle. cbn [filter] in *. rewrite IH.
  destruct (minute x =? m) eqn:Hx; [|reflexivity].
  apply Z.eqb_eq in Hx.
  replace (minute e =? m) with false by (symmetry; apply Z.eqb_neq; lia).
  reflexivity.
Qed.

(** Events of one minute keep the order they had before the sort. *)
Lemma sort_by_minute_stable (m : Z) (l : list MatchEvent) :
  in_minute m (sort_by_minute l) = in_minute m l.
Proof.
  induction l as [|e l IH]; [reflexivity|].
  cbn [sort_by_minute]. rewrite insert_by_minute_stable.
  unfold in_minute in *. cbn [filter]. now rewrite IH.
Qed.

Lemma in_minute_In (m : Z) (l : list MatchEvent) (e : MatchEvent) :
  In e (in_minute m l) <-> In e l /\ minute e = m.
Proof. unfold in_minute. rewrite filter_In. now rewrite Z.eqb_eq. Qed.

(** Sortedness and stability determine the result: every stable sort by
    minute returns the list [sort_by_minute] returns. *)
Lemma stable_sort_unique (l1 l2 : list MatchEvent) :
  Sorted by_minute l1 -> Sorted by_minute l2 ->
  (forall m, in_minute m l1 = in_minute m l2) ->
  l1 = l2.
Proof.
  assert (Htrans : Relations_1.Transitive by_minute)
    by (intros a b c; unfold by_minute; lia).
  intros H1 H2. apply (Sorted_StronglySorted Htrans) in H1, H2.
  revert l2 H2. induction H1 as [|x l1 Hs1 IH Hx]; intros l2 H2 Heq.
  - destruct l2 as [|y l2]; [reflexivity|].
    specialize (Heq (minute y)). unfold in_minute in Heq. cbn in Heq.
    rewrite Z.eqb_refl in Heq. discriminate.
  - destruct H2 as [|y l2 Hs2 Hy].
    + specialize (Heq (minute x)). unfold in_minute in Heq. cbn in Heq.
      rewrite Z.eqb_refl in Heq. discriminate.
    + assert (Hxy : minute x = minute y).
      { apply Z.le_antisymm.
        - assert (Hin : In y (in_minute (minute y) (x :: l1))).
          { rewrite Heq. apply in_minute_In. split; [now left|reflexivity]. }
          apply in_minute_In in Hin. destruct Hin as [[-> | Hin] _];
            [lia|].
          rewrite Forall_forall in Hx. now apply Hx.
        - assert (Hin : In x (in_minute (minute x) (y :: l2))).
          { rewrite <- Heq. apply in_minute_In.
            split; [now left|reflexivity]. }
          apply in_minute_In in Hin. destruct Hin as [[-> | Hin] _];
            [lia|].
          rewrite Forall_forall in Hy. now apply Hy. }
      assert (Hhead : x = y).
      { specialize (Heq (minute x)). unfold in_minute in Heq.
        cbn [filter] in Heq. rewrite <- Hxy, Z.eqb_refl in Heq.
        now injection Heq. }
      subst y. f_equal. apply IH; [assumption|].
      intros m. specialize (Heq m). unfold in_minute in *.
      cbn [filter] in Heq. destruct (minute x =? m); [|assumption].
      now injection Heq.
Qed.

(* ================================================================= *)
(** ** Runs over the random source *)

Lemma rbind_done {A B : Type} (m : Rand A) (k : A -> Rand B)
    (ds rest : list nat) (b : B) :
  rbind m k ds = Done b rest ->
  exists a mid, m ds = Done a mid /\ k a mid = Done b rest.
Proof.
  unfold rbind. destruct (m ds) as [a mid| |]; try discriminate. eauto.
Qed.

Lemma rbind_failed {A B : Type} (m : Rand A) (k : A -> Rand B)
    (ds : list nat) (e : exn) :
  rbind m k ds = Failed e ->
  m ds = Failed e \/ exists a mid, m ds = Done a mid /\ k a mid = Failed e.
Proof.
  unfold rbind. destruct (m ds) as [a mid|e'|]; try discriminate.
  - intros H. right. now exists a, mid.
  - intros [= <-]. now left.
Qed.

Lemma rbind_starved {A B : Type} (m : Rand A) (k : A -> Rand B)
    (ds : list nat) :
  m ds = Starved -> rbind m k ds = Starved.
Proof. unfold rbind. now intros ->. Qed.

Lemma ret_done {A : Type} (a b : A) (ds rest : list nat) :
  ret a ds = Done b rest -> a = b /\ ds = rest.
Proof. unfold ret. now intros [= -> ->]. Qed.

Lemma stats_eqb_spec (a b : Stats) : stats_eqb a b = true <-> a = b.
Proof.
  unfold stats_eqb. rewrite !andb_true_iff, !Z.eqb_eq.
  destruct a, b; cbn. split.
  - intros [[[-> ->] ->] ->]. reflexivity.
  - intros [= -> -> -> ->]. auto.
Qed.

(** [==] on two player records holds exactly for equal records. *)
Lemma player_eqb_spec (a b : Player) : player_eqb a b = true <-> a = b.
Proof.
  unfold player_eqb.
  rewrite !andb_true_iff, !String.eqb_eq, !Z.eqb_eq, stats_eqb_spec.
  destruct a, b; cbn. split.
  - intros [[[[[-> ->] ->] ->] ->] ->]. reflexivity.
  - intros [= -> -> -> -> -> ->]. auto 6.
Qed.

Lemma player_eqb_refl (p : Player) : player_eqb p p = true.
Proof. now apply player_eqb_spec. Qed.

Lemma pick_In {A : Type} (l : list A) (default : A) (d : nat) :
  l <> [] -> In (pick l default d) l.
Proof.
  intros Hl. unfold pick. apply nth_In.
  apply Nat.mod_upper_bound. destruct l; [contradiction|discriminate].
Qed.

Lemma randint_range (lo hi : Z) (ds rest : list nat) (z : Z) :
  lo <= hi -> randint lo hi ds = Done z rest -> lo <= z <= hi.
Proof.
  intros Hle. unfold randint. destruct ds as [|d ds]; [discriminate|].
  intros [= <- _].
  pose proof (Z.mod_pos_bound (Z.of_nat d) (hi - lo + 1)). lia.
Qed.

Lemma choice_In {A : Type} (l : list A) (ds rest : list nat) (x : A) :
  choice l ds = Done x rest -> In x l.
Proof.
  unfold choice. destruct l as [|y l]; [discriminate|].
  destruct ds as [|d ds]; [discriminate|].
  intros [= <- _]. now apply pick_In.
Qed.

Lemma choice_failed {A : Type} (l : list A) (ds : list nat) (e : exn) :
  choice l ds = Failed e -> l = [] /\ e = IndexError.
Proof.
  unfold choice. destruct l as [|y l].
  - now intros [= <-].
  - destruct ds; discriminate.
Qed.

(** The rejection loop returns only a player that differs from the
    scorer, and it never raises. *)
Lemma redraw_assist_done (roster : list Player) (s : Player) :
  forall (ds rest : list nat) (a a' : Player),
    In a roster ->
    redraw_assist roster s a ds = Done a' rest ->
    In a' roster /\ a' <> s.
Proof.
  induction ds as [|d ds IH]; intros rest a a' Hin; cbn [redraw_assist].
  - destruct (player_eqb a s) eqn:Heq; [discriminate|].
    intros [= <- _]. split; [assumption|].
    intros ->. now rewrite player_eqb_refl in Heq.
  - destruct (player_eqb a s) eqn:Heq.
    + apply IH. apply pick_In. intros ->. contradiction.
    + intros [= <- _]. split; [assumption|].
      intros ->. now rewrite player_eqb_refl in Heq.
Qed.

Lemma redraw_assist_never_fails (roster : list Player) (s : Player) :
  forall (ds : list nat) (a : Player) (e : exn),
    redraw_assist roster s a ds <> Failed e.
Proof.
  induction ds as [|d ds IH]; intros a e; cbn [redraw_assist];
    destruct (player_eqb a s); try discriminate. apply IH.
Qed.

Lemma goal_event_done (t : string) (roster : list Player)
    (ds rest : list nat) (ev : MatchEvent) :
  goal_event t roster ds = Done ev rest -> attributed t roster ev.
Proof.
  unfold goal_event. intros H.
  apply rbind_done in H. destruct H as (m & ds1 & Hm & H).
  apply rbind_done in H. destruct H as (s & ds2 & Hs & H).
  apply rbind_done in H. destruct H as (a & ds3 & Ha & H).
  apply rbind_done in H. destruct H as (a' & ds4 & Ha' & H).
  apply ret_done in H. destruct H as [<- _].
  apply randint_range in Hm; [|lia].
  apply choice_In in Hs. apply choice_In in Ha.
  apply redraw_assist_done in Ha'; [|assumption].
  destruct Ha' as [Hin Hne].
  repeat split; cbn; try lia. exists s, a'. auto.
Qed.

Lemma goal_event_failed (t : string) (roster : list Player)
    (ds : list nat) (e : exn) :
  goal_event t roster ds = Failed e -> roster = [] /\ e = IndexError.
Proof.
  unfold goal_event. intros H.
  apply rbind_failed in H. destruct H as [H | (m & ds1 & _ & H)].
  { unfold randint in H. destruct ds; discriminate. }
  apply rbind_failed in H. destruct H as [H | (s & ds2 & _ & H)].
  { now apply choice_failed in H. }
  apply rbind_failed in H. destruct H as [H | (a & ds3 & _ & H)].
  { now apply choice_failed in H. }
  apply rbind_failed in H. destruct H as [H | (a' & ds4 & _ & H)].
  { now apply redraw_assist_never_fails in H. }
  discriminate.
Qed.

Lemma goal_events_done (t : string) (roster : list Player) :
  forall (n : nat) (ds rest : list nat) (evs : list MatchEvent),
    goal_events n t roster ds = Done evs rest ->
    List.length evs = n /\ Forall (attributed t roster) evs.
Proof.
  induction n as [|n IH]; intros ds rest evs; cbn [goal_events].
  - intros H. apply ret_done in H. destruct H as [<- _]. auto.
  - intros H.
    apply rbind_done in H. destruct H as (ev & ds1 & Hev & H).
    apply rbind_done in H. destruct H as (evs' & ds2 & Hevs & H).
    apply ret_done in H. destruct H as [<- _].
    apply goal_event_done in Hev. apply IH in Hevs.
    destruct Hevs as [Hlen Hall]. cbn. split; [congruence|].
    now constructor.
Qed.

Lemma goal_events_failed (t : string) (roster : list Player) :
  forall (n : nat) (ds : list nat) (e : exn),
    goal_events n t roster ds = Failed e -> roster = [] /\ e = IndexError.
Proof.
  induction n as [|n IH]; intros ds e; cbn [goal_events]; [discriminate|].
  intros H.
  apply rbind_failed in H. destruct H as [H | (ev & ds1 & _ & H)].
  { now apply goal_event_failed in H. }
  apply rbind_failed in H. destruct H as [H | (evs & ds2 & _ & H)].
  { now apply IH in H. }
  discriminate.
Qed.

(** The two loops: home goals first, then away goals. *)
Lemma generated_events_done (d : Data) (home away : string) (hg ag : Z)
    (ds rest : list nat) (raw : list MatchEvent) :
  generated_events d home away hg ag ds = Done raw rest ->
  exists hs aws,
    raw = (hs ++ aws)%list
    /\ List.length hs = Z.to_nat hg /\ List.length aws = Z.to_nat ag
    /\ Forall (attributed home (team_players d home)) hs
    /\ Forall (attributed away (team_players d away)) aws.
Proof.
  unfold generated_events. intros H.
  apply rbind_done in H. destruct H as (hs & ds1 & Hhs & H).
  apply rbind_done in H. destruct H as (aws & ds2 & Haws & H).
  apply ret_done in H. destruct H as [<- _].
  apply goal_events_done in Hhs. apply goal_events_done in Haws.
  exists hs, aws. intuition.
Qed.

Lemma generate_match_events_done (d : Data) (home away : string) (hg ag : Z)
    (ds rest : list nat) (evs : list MatchEvent) :
  generate_match_events d home away hg ag ds = Done evs rest ->
  exists raw,
    generated_events d home away hg ag ds = Done raw rest
    /\ evs = sort_by_minute raw.
Proof.
  unfold generate_match_events. intros H.
  apply rbind_done in H. destruct H as (raw & ds1 & Hraw & H).
  apply ret_done in H. destruct H as [<- <-]. eauto.
Qed.

(* ================================================================= *)
(** ** Reproducibility: a run depends on the draws it consumes *)

Lemma reads_prefix_ret {A : Type} (a : A) : reads_prefix (ret a).
Proof.
  intros ds b rest H. apply ret_done in H. destruct H as [<- <-].
  exists []. split; reflexivity.
Qed.

Lemma reads_prefix_rbind {A B : Type} (m : Rand A) (k : A -> Rand B) :
  reads_prefix m -> (forall a, reads_prefix (k a)) ->
  reads_prefix (rbind m k).
Proof.
  intros Hm Hk ds b rest H.
  apply rbind_done in H. destruct H as (a & mid & Ha & Hb).
  destruct (Hm _ _ _ Ha) as (u1 & -> & H1).
  destruct (Hk a _ _ _ Hb) as (u2 & -> & H2).
  exists (u1 ++ u2)%list. split; [now rewrite app_assoc|].
  intros tail. unfold rbind. rewrite <- app_assoc, H1. apply H2.
Qed.

Lemma reads_prefix_randint (lo hi : Z) : reads_prefix (randint lo hi).
Proof.
  intros [|d ds] z rest; cbn; [discriminate|]. intros [= <- <-].
  exists [d]. split; reflexivity.
Qed.

Lemma reads_prefix_choice {A : Type} (l : list A) : reads_prefix (choice l).
Proof.
  intros ds x rest. unfold choice. destruct l as [|y l]; [discriminate|].
  destruct ds as [|d ds]; [discriminate|]. intros [= <- <-].
  exists [d]. split; reflexivity.
Qed.

Lemma reads_prefix_redraw (roster : list Player) (s a : Player) :
  reads_prefix (redraw_assist roster s a).
Proof.
  intros ds. revert a.
  induction ds as [|d ds IH]; intros a a' rest; cbn [redraw_assist].
  - destruct (player_eqb a s) eqn:Heq; [discriminate|]. intros [= <- <-].
    exists []. split; [reflexivity|]. intros tail. cbn [app].
    destruct tail; cbn [redraw_assist]; now rewrite Heq.
  - destruct (player_eqb a s) eqn:Heq.
    + intros H. destruct (IH _ _ _ H) as (used & -> & Hused).
      exists (d :: used). split; [reflexivity|]. intros tail.
      cbn [app redraw_assist]. rewrite Heq. apply Hused.
    + intros [= <- <-]. exists []. split; [reflexivity|]. intros tail.
      cbn [app]. destruct tail; cbn [redraw_assist]; now rewrite Heq.
Qed.

Lemma reads_prefix_goal_event (t : string) (roster : list Player) :
  reads_prefix (goal_event t roster).
Proof.
  unfold goal_event.
  apply reads_prefix_rbind; [apply reads_prefix_randint|]. intros m.
  apply reads_prefix_rbind; [apply reads_prefix_choice|]. intros s.
  apply reads_prefix_rbind; [apply reads_prefix_choice|]. intros a.
  apply reads_prefix_rbind; [apply reads_prefix_redraw|]. intros a'.
  apply reads_prefix_ret.
Qed.

Lemma reads_prefix_goal_events (t : string) (roster : list Player) (n : nat) :
  reads_prefix (goal_events n t roster).
Proof.
  induction n as [|n IH]; cbn [goal_events]; [apply reads_prefix_ret|].
  apply reads_prefix_rbind; [apply reads_prefix_goal_event|]. intros ev.
  apply reads_prefix_rbind; [exact IH|]. intros evs.
  apply reads_prefix_ret.
Qed.

Lemma reads_prefix_generate_match_events (d : Data) (home away : string)
    (hg ag : Z) :
  reads_prefix (generate_match_events d home away hg ag).
Proof.
  unfold generate_match_events, generated_events.
  apply reads_prefix_rbind; [|intros; apply reads_prefix_ret].
  apply reads_prefix_rbind; [apply reads_prefix_goal_events|]. intros hs.
  apply reads_prefix_rbind; [apply reads_prefix_goal_events|]. intros aws.
  apply reads_prefix_ret.
Qed.

(* ================================================================= *)
(** ** C3: a side with a single player *)

Lemma pick_single {A : Type} (x default : A) (d : nat) :
  pick [x] default d = x.
Proof. unfold pick. cbn [List.length]. now rewrite Nat.mod_1_r. Qed.

(** With one player on the roster every redraw returns the scorer, and
    the loop uses up any number of draws. *)
Lemma redraw_assist_single (p : Player) (ds : list nat) :
  redraw_assist [p] p p ds = Starved.
Proof.
  induction ds as [|d ds IH]; cbn [redraw_assist];
    rewrite player_eqb_refl; [reflexivity|].
  now rewrite pick_single.
Qed.

Lemma goal_event_single (t : string) (p : Player) (ds : list nat) :
  goal_event t [p] ds = Starved.
Proof.
  unfold goal_event, rbind, randint, choice.
  destruct ds as [|d1 [|d2 [|d3 ds]]]; try reflexivity.
  rewrite !pick_single. now rewrite redraw_assist_single.
Qed.

Lemma goal_events_single (t : string) (p : Player) (n : nat)
    (ds : list nat) :
  goal_events (S n) t [p] ds = Starved.
Proof.
  cbn [goal_events]. apply rbind_starved. apply goal_event_single.
Qed.

(** C3, on the code: when the roster of a side that scores holds exactly
    one player, [generate_match_events] returns on no sequence of draws,
    however long, and raises nothing for that roster: the rejection loop
    runs forever. The only failure that can precede it is the
    [IndexError] of an empty home roster. *)
Theorem single_player_side_never_returns (d : Data) (home away : string)
    (hg ag : Z) (p : Player) :
  (team_players d home = [p] -> 0 < hg ->
   forall ds, generate_match_events d home away hg ag ds = Starved)
  /\ (team_players d away = [p] -> 0 < ag ->
      forall ds,
        (forall evs rest,
            generate_match_events d home away hg ag ds <> Done evs rest)
        /\ (forall e,
              generate_match_events d home away hg ag ds = Failed e ->
              e = IndexError /\ team_players d home = [])).
Proof.
  split.
  - intros Hroster Hpos ds.
    unfold generate_match_events, generated_events. rewrite Hroster.
    destruct (Z.to_nat hg) as [|n] eqn:Hn; [lia|].
    do 2 apply rbind_starved. apply goal_events_single.
  - intros Hroster Hpos ds.
    unfold generate_match_events, generated_events. rewrite Hroster.
    destruct (Z.to_nat ag) as [|n] eqn:Hn; [lia|].
    pose proof (goal_events_single away p n) as Haway.
    unfold rbind.
    destruct (goal_events (Z.to_nat hg) home (team_players d home) ds)
      as [hs mid|e'|] eqn:Hhome.
    + rewrite Haway. split; intros; discriminate.
    + split; [discriminate|]. intros e [= <-].
      apply goal_events_failed in Hhome. tauto.
    + split; intros; discriminate.
Qed.

Lemma single_player_side_never_returns_witness :
  generate_match_events Sample.league "Grey FC" "Red FC" 1 0
                        [7; 3; 9; 4; 1; 8; 2; 6; 5; 0]%nat
  = Starved.
Proof.
  destruct (single_player_side_never_returns
              Sample.league "Grey FC" "Red FC" 1 0 Sample.veteran)
    as [H _].
  apply H; [reflexivity|lia].
Defined.

(* ================================================================= *)
(** ** C6: scorer and assist *)

(** On a roster with two players that differ, three draws settle a goal:
    minute, scorer, and an assist that needs no redraw. *)
Lemma goal_event_can_finish (t : string) (roster : list Player)
    (p q : Player) :
  In p roster -> In q roster -> p <> q ->
  exists j, forall tail,
    exists ev, goal_event t roster (0 :: 0 :: j :: tail)%nat = Done ev tail.
Proof.
  intros Hp Hq Hpq.
  destruct roster as [|x roster]; [contradiction|].
  assert (Hy : exists y, In y (x :: roster) /\ y <> x).
  { destruct (player_eqb p x) eqn:Hpx.
    - apply player_eqb_spec in Hpx. subst p. exists q. split; congruence.
    - exists p. split; [assumption|]. intros ->.
      now rewrite player_eqb_refl in Hpx. }
  destruct Hy as (y & Hy & Hyx).
  destruct (In_nth _ _ x Hy) as (j & Hj & Hnth).
  exists j. intros tail.
  unfold goal_event, rbind, randint, choice, pick.
  rewrite (Nat.mod_small j) by assumption.
  rewrite Nat.Div0.mod_0_l.
  rewrite Hnth. cbn [nth].
  assert (Hne : player_eqb y x = false).
  { destruct (player_eqb y x) eqn:E; [|reflexivity].
    apply player_eqb_spec in E. contradiction. }
  destruct tail; cbn [redraw_assist]; rewrite Hne; eexists; reflexivity.
Qed.

Lemma goal_events_can_finish (t : string) (roster : list Player)
    (p q : Player) (n : nat) :
  In p roster -> In q roster -> p <> q ->
  exists ds, forall tail,
    exists evs, goal_events n t roster (ds ++ tail)%list = Done evs tail.
Proof.
  intros Hp Hq Hpq.
  destruct (goal_event_can_finish t roster p q Hp Hq Hpq) as (j & Hj).
  induction n as [|n (ds & IH)].
  - exists []. intros tail. now exists [].
  - exists (0 :: 0 :: j :: ds)%nat. intros tail.
    destruct (Hj (ds ++ tail)%list) as (ev & Hev).
    destruct (IH tail) as (evs & Hevs).
    exists (ev :: evs). cbn [goal_events app]. unfold rbind.
    now rewrite Hev, Hevs.
Qed.

Lemma attributed_names_differ (t : string) (roster : list Player)
    (e : MatchEvent) :
  names_identify roster -> attributed t roster e -> scorer e <> assist e.
Proof.
  intros Hnames (_ & _ & _ & s & a & Hs & Ha & Hne & -> & ->) Heq.
  apply Hne. symmetry. now apply Hnames.
Qed.

(** C6, as stated, fails: the loop compares the player records, the event
    keeps their names. The roster of "Twins FC" has three players that
    differ, two of them named "Sam"; the draws 0, 0, 1 pick the first as
    scorer and the second as assist, and the event names "Sam" twice. *)
Lemma same_name_scorer_and_assist :
  team_players Sample.twins_league "Twins FC"
  = [Sample.sam_junior; Sample.sam_senior; Sample.tom]
  /\ NoDup [Sample.sam_junior; Sample.sam_senior; Sample.tom]
  /\ generate_match_events Sample.twins_league "Twins FC" "Red FC" 1 0
                           [0; 0; 1]%nat
     = Done [mkEvent 1 "goal" "Twins FC" "Sam" "Sam"] []
  /\ ~ Forall (fun e => scorer e <> assist e)
              [mkEvent 1 "goal" "Twins FC" "Sam" "Sam"].
Proof.
  split; [vm_compute; reflexivity|].
  split.
  { repeat constructor; cbn; intuition discriminate. }
  split; [vm_compute; reflexivity|].
  intros H. inversion H as [|? ? Hne _]. now apply Hne.
Qed.

(** C6 (amended): when the names identify the players of the two
    rosters, every event [generate_match_events] returns has a scorer
    that differs from the assist; and when each side that scores has two
    players that differ, there are draws on which the call returns. *)
Theorem events_scorer_differs_from_assist (d : Data) (home away : string)
    (hg ag : Z) :
  names_identify (team_players d home) ->
  names_identify (team_players d away) ->
  (forall ds evs rest,
      generate_match_events d home away hg ag ds = Done evs rest ->
      Forall (fun e => scorer e <> assist e) evs)
  /\ ((0 < hg -> exists p q, In p (team_players d home)
                             /\ In q (team_players d home) /\ p <> q) ->
      (0 < ag -> exists p q, In p (team_players d away)
                             /\ In q (team_players d away) /\ p <> q) ->
      exists ds evs,
        generate_match_events d home away hg ag ds = Done evs []
        /\ List.length evs = (Z.to_nat hg + Z.to_nat ag)%nat).
Proof.
  intros Hhome Haway. split.
  - intros ds evs rest H.
    apply generate_match_events_done in H. destruct H as (raw & Hraw & ->).
    apply generated_events_done in Hraw.
    destruct Hraw as (hs & aws & -> & _ & _ & Hhs & Haws).
    apply (Permutation_Forall (sort_by_minute_perm _)).
    apply Forall_app. split.
    + eapply Forall_impl; [|exact Hhs]. intros e.
      now apply attributed_names_differ.
    + eapply Forall_impl; [|exact Haws]. intros e.
      now apply attributed_names_differ.
  - intros Htwo_home Htwo_away.
    assert (Hh : exists ds, forall tail, exists evs,
               goal_events (Z.to_nat hg) home (team_players d home)
                           (ds ++ tail)%list = Done evs tail).
    { destruct (Z.to_nat hg) as [|n] eqn:Hn.
      - exists []. intros tail. now exists [].
      - destruct Htwo_home as (p & q & Hp & Hq & Hpq); [lia|].
        now apply (goal_events_can_finish home _ p q). }
    assert (Ha : exists ds, forall tail, exists evs,
               goal_events (Z.to_nat ag) away (team_players d away)
                           (ds ++ tail)%list = Done evs tail).
    { destruct (Z.to_nat ag) as [|n] eqn:Hn.
      - exists []. intros tail. now exists [].
      - destruct Htwo_away as (p & q & Hp & Hq & Hpq); [lia|].
        now apply (goal_events_can_finish away _ p q). }
    destruct Hh as (ds1 & Hh). destruct Ha as (ds2 & Ha).
    destruct (Ha []) as (aws & Haws).
    destruct (Hh (ds2 ++ [])%list) as (hs & Hhs).
    exists (ds1 ++ ds2 ++ [])%list, (sort_by_minute (hs ++ aws)).
    split.
    + unfold generate_match_events, generated_events, rbind.
      now rewrite Hhs, Haws.
    + rewrite <- (Permutation_length (sort_by_minute_perm _)).
      rewrite length_app.
      apply goal_events_done in Hhs. apply goal_events_done in Haws.
      destruct Hhs as [-> _]. destruct Haws as [-> _]. reflexivity.
Qed.

Lemma events_scorer_differs_from_assist_witness :
  generate_match_events Sample.league "Red FC" "Blue FC" 2 1
                        [44; 0; 0; 1; 9; 1; 0; 9; 3; 2]%nat
  = Done [mkEvent 10 "goal" "Red FC" "Bob" "Alice";
          mkEvent 10 "goal" "Blue FC" "Dave" "Carol";
          mkEvent 45 "goal" "Red FC" "Alice" "Bob"] []
  /\ Forall (fun e => scorer e <> assist e)
            [mkEvent 10 "goal" "Red FC" "Bob" "Alice";
             mkEvent 10 "goal" "Blue FC" "Dave" "Carol";
             mkEvent 45 "goal" "Red FC" "Alice" "Bob"].
Proof.
  assert (Hrun :
    generate_match_events Sample.league "Red FC" "Blue FC" 2 1
                          [44; 0; 0; 1; 9; 1; 0; 9; 3; 2]%nat
    = Done [mkEvent 10 "goal" "Red FC" "Bob" "Alice";
            mkEvent 10 "goal" "Blue FC" "Dave" "Carol";
            mkEvent 45 "goal" "Red FC" "Alice" "Bob"] [])
    by (vm_compute; reflexivity).
  split; [exact Hrun|].
  destruct (events_scorer_differs_from_assist
              Sample.league "Red FC" "Blue FC" 2 1) as [H _].
  - intros p q Hp Hq Hn.
    cbn in Hp, Hq.
    destruct Hp as [<- | [<- | []]]; destruct Hq as [<- | [<- | []]];
      try reflexivity; discriminate Hn.
  - intros p q Hp Hq Hn.
    cbn in Hp, Hq.
    destruct Hp as [<- | [<- | []]]; destruct Hq as [<- | [<- | []]];
      try reflexivity; discriminate Hn.
  - exact (H _ _ _ Hrun).
Defined.

(* ================================================================= *)
(** ** C7: the order of the returned events *)

Lemma attributed_team (t : string) (roster : list Player) (e : MatchEvent) :
  attributed t roster e -> ev_team e = t /\ 1 <= minute e <= 90.
Proof. intros (Hm & _ & Ht & _). auto. Qed.

Lemma in_minute_app (m : Z) (l1 l2 : list MatchEvent) :
  in_minute m (l1 ++ l2) = (in_minute m l1 ++ in_minute m l2)%list.
Proof. apply filter_app. Qed.

(** C7: the returned events are the generated ones, home goals then away
    goals, sorted by minute: the minutes do not decrease, events of one
    minute keep the order of generation, every minute lies in [1, 90], and
    the result is the only list with these properties. The run is a
    function of the draws it consumes: the same draws give the same
    events whatever follows them. *)
Theorem match_events_sorted_stable_in_range (d : Data) (home away : string)
    (hg ag : Z) (ds rest : list nat) (evs : list MatchEvent) :
  generate_match_events d home away hg ag ds = Done evs rest ->
  exists hs aws,
    generated_events d home away hg ag ds = Done (hs ++ aws)%list rest
    /\ Forall (fun e => ev_team e = home) hs
    /\ List.length hs = Z.to_nat hg
    /\ Forall (fun e => ev_team e = away) aws
    /\ List.length aws = Z.to_nat ag
    /\ Sorted by_minute evs
    /\ Permutation (hs ++ aws) evs
    /\ (forall m, in_minute m evs = (in_minute m hs ++ in_minute m aws)%list)
    /\ Forall (fun e => 1 <= minute e <= 90) evs
    /\ (forall l, Sorted by_minute l ->
                  (forall m, in_minute m l = in_minute m (hs ++ aws)) ->
                  l = evs)
    /\ (exists used,
          ds = (used ++ rest)%list
          /\ forall tail,
              generate_match_events d home away hg ag (used ++ tail)%list
              = Done evs tail).
Proof.
  intros H.
  pose proof (reads_prefix_generate_match_events d home away hg ag _ _ _ H)
    as Hprefix.
  apply generate_match_events_done in H. destruct H as (raw & Hraw & ->).
  pose proof (generated_events_done _ _ _ _ _ _ _ _ Hraw)
    as (hs & aws & -> & Hlh & Hla & Hhs & Haws).
  exists hs, aws.
  split; [assumption|].
  split; [eapply Forall_impl; [|exact Hhs]; intros e He;
          now apply attributed_team in He|].
  split; [assumption|].
  split; [eapply Forall_impl; [|exact Haws]; intros e He;
          now apply attributed_team in He|].
  split; [assumption|].
  split; [apply sort_by_minute_sorted|].
  split; [apply sort_by_minute_perm|].
  split; [intros m; now rewrite sort_by_minute_stable, in_minute_app|].
  split.
  { apply (Permutation_Forall (sort_by_minute_perm _)).
    apply Forall_app. split.
    - eapply Forall_impl; [|exact Hhs]. intros e He.
      now apply attributed_team in He.
    - eapply Forall_impl; [|exact Haws]. intros e He.
      now apply attributed_team in He. }
  split; [|assumption].
  intros l Hsorted Hstable. apply stable_sort_unique.
  - assumption.
  - apply sort_by_minute_sorted.
  - intros m. now rewrite Hstable, sort_by_minute_stable.
Qed.

Lemma match_events_sorted_stable_in_range_witness :
  Sorted by_minute [mkEvent 10 "goal" "Red FC" "Bob" "Alice";
                    mkEvent 10 "goal" "Blue FC" "Dave" "Carol";
                    mkEvent 45 "goal" "Red FC" "Alice" "Bob"]
  /\ generate_match_events Sample.league "Red FC" "Blue FC" 2 1
                           [44; 0; 0; 1; 9; 1; 0; 9; 3; 2; 77; 78]%nat
     = Done [mkEvent 10 "goal" "Red FC" "Bob" "Alice";
             mkEvent 10 "goal" "Blue FC" "Dave" "Carol";
             mkEvent 45 "goal" "Red FC" "Alice" "Bob"] [77; 78]%nat.
Proof.
  assert (Hrun :
    generate_match_events Sample.league "Red FC" "Blue FC" 2 1
                          [44; 0; 0; 1; 9; 1; 0; 9; 3; 2; 77; 78]%nat
    = Done [mkEvent 10 "goal" "Red FC" "Bob" "Alice";
            mkEvent 10 "goal" "Blue FC" "Dave" "Carol";
            mkEvent 45 "goal" "Red FC" "Alice" "Bob"] [77; 78]%nat)
    by (vm_compute; reflexivity).
  destruct (match_events_sorted_stable_in_range _ _ _ _ _ _ _ _ Hrun)
    as (hs & aws & _ & _ & _ & _ & _ & Hsorted & _).
  split; [exact Hsorted | exact Hrun].
Defined.

(* ================================================================= *)
(** ** C8: the statistics after a match *)

Lemma total_app (f : Stats -> Z) (l1 l2 : list Player) :
  total f (l1 ++ l2) = total f l1 + total f l2.
Proof.
  unfold total. induction l1 as [|p l1 IH]; cbn; [reflexivity|].
  cbn in IH. rewrite IH. lia.
Qed.

Lemma find_by_name (name : string) (ps : list Player) :
  In name (map p_name ps) ->
  exists p, find (fun q => String.eqb (p_name q) name) ps = Some p.
Proof.
  induction ps as [|q ps IH]; cbn; [contradiction|].
  destruct (String.eqb (p_name q) name) eqn:Hq; [eauto|].
  intros [Heq | Hin]; [|now apply IH].
  apply String.eqb_neq in Hq. contradiction.
Qed.

(** One in-place update of the first player of a name: the effect of an
    update [g] that touches one tally. *)
Lemma update_named_effect (name : string) (g : Player -> Player)
    (dg da : Z) (ps : list Player) :
  (forall p, goals (p_stats (g p)) = goals (p_stats p) + dg
             /\ assists (p_stats (g p)) = assists (p_stats p) + da
             /\ without_tallies (g p) = without_tallies p) ->
  In name (map p_name ps) ->
  exists ps',
    update_named name g ps = Ok ps'
    /\ total goals ps' = total goals ps + dg
    /\ total assists ps' = total assists ps + da
    /\ map without_tallies ps' = map without_tallies ps.
Proof.
  intros Hg Hin. unfold update_named.
  destruct (find_by_name name ps Hin) as (p & Hp). rewrite Hp.
  destruct (update_first_split _ g ps p Hp) as (l1 & l2 & -> & -> & _).
  eexists. split; [reflexivity|].
  destruct (Hg p) as (Hgoals & Hassists & Hrest).
  rewrite !total_app, !map_app. cbn [total fold_right map].
  rewrite Hgoals, Hassists, Hrest.
  fold (total goals l2). fold (total assists l2). repeat split; lia.
Qed.

Lemma add_goal_effect (p : Player) :
  goals (p_stats (add_goal p)) = goals (p_stats p) + 1
  /\ assists (p_stats (add_goal p)) = assists (p_stats p) + 0
  /\ without_tallies (add_goal p) = without_tallies p.
Proof. cbn. repeat split; lia. Qed.

Lemma add_assist_effect (p : Player) :
  goals (p_stats (add_assist p)) = goals (p_stats p) + 0
  /\ assists (p_stats (add_assist p)) = assists (p_stats p) + 1
  /\ without_tallies (add_assist p) = without_tallies p.
Proof. cbn. repeat split; lia. Qed.

Lemma names_of_without_tallies (ps ps' : list Player) :
  map without_tallies ps' = map without_tallies ps ->
  map p_name ps' = map p_name ps.
Proof.
  intros H. apply (f_equal (map p_name)) in H.
  rewrite !map_map in H. exact H.
Qed.

Lemma resolvable_transport (ps ps' : list Player) (e : MatchEvent) :
  map without_tallies ps' = map without_tallies ps ->
  resolvable ps e -> resolvable ps' e.
Proof.
  intros H. apply names_of_without_tallies in H.
  unfold resolvable. now rewrite H.
Qed.

Lemma update_event_effect (e : MatchEvent) (ps : list Player) :
  resolvable ps e ->
  exists ps',
    update_event e ps = (Ok tt, ps')
    /\ total goals ps' = total goals ps + 1
    /\ total assists ps' = total assists ps + 1
    /\ map without_tallies ps' = map without_tallies ps.
Proof.
  intros (Htype & Hs & Ha). unfold update_event. rewrite Htype.
  cbn [String.eqb Ascii.eqb Bool.eqb].
  destruct (update_named_effect (scorer e) add_goal 1 0 ps
              add_goal_effect Hs) as (ps1 & -> & Hg1 & Ha1 & Hr1).
  rewrite <- (names_of_without_tallies _ _ Hr1) in Ha.
  destruct (update_named_effect (assist e) add_assist 0 1 ps1
              add_assist_effect Ha) as (ps2 & -> & Hg2 & Ha2 & Hr2).
  exists ps2. repeat split; [lia | lia | congruence].
Qed.

Lemma update_events_effect (evs : list MatchEvent) :
  forall ps,
    Forall (resolvable ps) evs ->
    exists ps',
      update_events evs ps = (Ok tt, ps')
      /\ total goals ps' = total goals ps + Z.of_nat (List.length evs)
      /\ total assists ps' = total assists ps + Z.of_nat (List.length evs)
      /\ map without_tallies ps' = map without_tallies ps.
Proof.
  induction evs as [|e evs IH]; intros ps Hall.
  - exists ps. cbn. repeat split; lia.
  - inversion Hall as [|? ? He Hevs]; subst.
    destruct (update_event_effect e ps He) as (ps1 & H1 & Hg1 & Ha1 & Hr1).
    destruct (IH ps1) as (ps2 & H2 & Hg2 & Ha2 & Hr2).
    { eapply Forall_impl; [|exact Hevs]. intros e'.
      now apply resolvable_transport. }
    exists ps2. cbn [update_events]. rewrite H1, H2.
    cbn [List.length]. repeat split; [lia | lia | congruence].
Qed.

Lemma lift_done {A : Type} (r : result A) (ds rest : list nat) (a : A) :
  lift r ds = Done a rest -> r = Ok a /\ ds = rest.
Proof. unfold lift. destruct r; [|discriminate]. now intros [= -> ->]. Qed.

Lemma attributed_resolvable (d : Data) (t : string) (e : MatchEvent) :
  attributed t (team_players d t) e -> resolvable (players d) e.
Proof.
  intros (_ & Htype & _ & s & a & Hs & Ha & _ & Hsn & Han).
  apply team_players_spec in Hs, Ha.
  unfold resolvable. rewrite Hsn, Han.
  split; [assumption|]. split; apply in_map; tauto.
Qed.

Section SimulationFacts.

Variable gauss_sample : float -> float -> nat -> float.

Lemma draw_goals_nonneg (strength : float) (ds rest : list nat) (n : Z) :
  draw_goals gauss_sample strength ds = Done n rest -> 0 <= n.
Proof.
  unfold draw_goals. intros H.
  apply rbind_done in H. destruct H as (mu & ds1 & _ & H).
  apply rbind_done in H. destruct H as (sigma & ds2 & _ & H).
  apply rbind_done in H. destruct H as (g & ds3 & _ & H).
  apply rbind_done in H. destruct H as (z & ds4 & _ & H).
  apply ret_done in H. destruct H as [<- _]. lia.
Qed.

(** The result [simulate_match] builds: as many events as goals, each
    naming two players of the league. *)
Lemma prepare_match_events (today home away : string) (d : Data)
    (ds rest : list nat) (mr : MatchResult) :
  prepare_match gauss_sample today home away d ds = Done mr rest ->
  Forall (resolvable (players d)) (events mr)
  /\ 0 <= home_goals mr /\ 0 <= away_goals mr
  /\ Z.of_nat (List.length (events mr)) = home_goals mr + away_goals mr.
Proof.
  unfold prepare_match.
  destruct (find_team d home) as [h|]; [|discriminate].
  destruct (find_team d away) as [a|]; [|discriminate].
  intros H.
  apply rbind_done in H. destruct H as (hs & ds1 & _ & H).
  apply rbind_done in H. destruct H as (aws & ds2 & _ & H).
  apply rbind_done in H. destruct H as (hg & ds3 & Hhg & H).
  apply rbind_done in H. destruct H as (ag & ds4 & Hag & H).
  apply rbind_done in H. destruct H as (evs & ds5 & Hevs & H).
  apply ret_done in H. destruct H as [<- _]. cbn.
  apply draw_goals_nonneg in Hhg, Hag.
  apply generate_match_events_done in Hevs.
  destruct Hevs as (raw & Hraw & ->).
  apply generated_events_done in Hraw.
  destruct Hraw as (l1 & l2 & -> & Hl1 & Hl2 & Ha1 & Ha2).
  split.
  - apply (Permutation_Forall (sort_by_minute_perm _)).
    apply Forall_app. split.
    + eapply Forall_impl; [|exact Ha1]. intros e.
      apply attributed_resolvable.
    + eapply Forall_impl; [|exact Ha2]. intros e.
      apply attributed_resolvable.
  - repeat split; try assumption.
    rewrite <- (Permutation_length (sort_by_minute_perm _)).
    rewrite length_app. lia.
Qed.

End SimulationFacts.

(** C8: on a result whose events are [k] home goals and [m] away goals,
    each naming a scorer and an assist found by exact name,
    [update_stats] succeeds and raises the sum of the [goals] fields by
    [k + m] and the sum of the [assists] fields by [k + m]; it changes
    nothing else in the world. [simulate_match] changes the players
    through this call alone: when it returns, the world is the one
    [update_stats] leaves after the result was appended to the match
    history, and when it does not, the world is untouched. *)
Theorem update_stats_adds_one_per_goal (mr : MatchResult) (w : World)
    (hs aws : list MatchEvent) (k m : nat) :
  Permutation (events mr) (hs ++ aws) ->
  List.length hs = k -> List.length aws = m ->
  Forall (resolvable (players (data w))) (events mr) ->
  (exists w',
      update_stats mr w = (Ok tt, w')
      /\ total goals (players (data w'))
         = total goals (players (data w)) + Z.of_nat (k + m)
      /\ total assists (players (data w'))
         = total assists (players (data w)) + Z.of_nat (k + m)
      /\ map without_tallies (players (data w'))
         = map without_tallies (players (data w))
      /\ teams (data w') = teams (data w)
      /\ transfer_history w' = transfer_history w
      /\ match_history w' = match_history w)
  /\ (forall gauss_sample today home away ds out w1,
        simulate_match gauss_sample today home away w ds = (out, w1) ->
        match out with
        | Done played _ =>
            update_stats played
              (mkWorld (data w) (transfer_history w)
                       (match_history w ++ [played]))
            = (Ok tt, w1)
            /\ total goals (players (data w1))
               = total goals (players (data w))
                 + home_goals played + away_goals played
            /\ total assists (players (data w1))
               = total assists (players (data w))
                 + home_goals played + away_goals played
        | _ => w1 = w
        end).
Proof.
  intros Hperm Hk Hm Hres. split.
  - unfold update_stats.
    destruct (update_events_effect (events mr) _ Hres)
      as (ps' & -> & Hg & Ha & Hrest).
    eexists. split; [reflexivity|]. cbn.
    rewrite (Permutation_length Hperm), length_app, Hk, Hm in Hg, Ha.
    repeat split; assumption.
  - intros gauss_sample today home away ds out w1. unfold simulate_match.
    destruct (prepare_match gauss_sample today home away (data w) ds)
      as [played rest|e|] eqn:Hprep.
    + apply prepare_match_events in Hprep.
      destruct Hprep as (Hall & _ & _ & Hlen).
      unfold update_stats. cbn [data players].
      destruct (update_events_effect (events played) _ Hall)
        as (ps' & Hupd & Hg & Ha & _).
      rewrite Hupd. intros [= <- <-]. cbn [players data with_players].
      rewrite Hupd. repeat split; lia.
    + now intros [= <- <-].
    + now intros [= <- <-].
Qed.

Lemma update_stats_adds_one_per_goal_witness :
  exists w',
    update_stats
      (mkMatch "Red FC" "Blue FC" 2 1
               [mkEvent 10 "goal" "Red FC" "Bob" "Alice";
                mkEvent 10 "goal" "Blue FC" "Dave" "Carol";
                mkEvent 45 "goal" "Red FC" "Alice" "Bob"] Sample.today)
      Sample.world = (Ok tt, w')
    /\ total goals (players (data w')) = 7 + 3
    /\ total assists (players (data w')) = 6 + 3.
Proof.
  destruct (update_stats_adds_one_per_goal
              (mkMatch "Red FC" "Blue FC" 2 1
                 [mkEvent 10 "goal" "Red FC" "Bob" "Alice";
                  mkEvent 10 "goal" "Blue FC" "Dave" "Carol";
                  mkEvent 45 "goal" "Red FC" "Alice" "Bob"] Sample.today)
              Sample.world
              [mkEvent 10 "goal" "Red FC" "Bob" "Alice";
               mkEvent 45 "goal" "Red FC" "Alice" "Bob"]
              [mkEvent 10 "goal" "Blue FC" "Dave" "Carol"] 2 1)
    as ((w' & Hrun & Hg & Ha & _) & _).
  - cbn [events app]. apply perm_skip. apply perm_swap.
  - reflexivity.
  - reflexivity.
  - cbn [events]. repeat constructor; cbn; tauto.
  - exists w'. split; [exact Hrun|]. split; [exact Hg | exact Ha].
Defined.

(* ================================================================= *)
(** * Further properties of the engines *)

(** ** The valuation *)

Lemma calculate_player_value_age_factor (p : Player) :
  calculate_player_value p
  = (factor <- age_factor (p_age p) ;;
     per_90 <- int_truediv (minutes_played (p_stats p)) 90 ;;
     minutes_term <- float_mul_int per_90 100000 ;;
     performance <-
       int_add_float (goals (p_stats p) * 500000
                      + assists (p_stats p) * 300000) minutes_term ;;
     weighted <- int_mul_float (p_rating p * 2000000) factor ;;
     int_of_float (fadd weighted performance)).
Proof.
  unfold calculate_player_value, age_factor.
  destruct (int_mul_float (Z.abs (26 - p_age p)) lit_0_05);
    cbn [bind]; reflexivity.
Qed.

(** X1: the value is symmetric around the age of 26: a player [k] years
    older than 26 is worth exactly what the same player [k] years younger
    is worth. *)
Theorem value_symmetric_around_26 (p : Player) (k : Z) :
  calculate_player_value (set_age (26 + k) p)
  = calculate_player_value (set_age (26 - k) p).
Proof.
  rewrite !calculate_player_value_age_factor. cbn [set_age p_age p_stats
    p_rating]. unfold age_factor.
  replace (Z.abs (26 - (26 + k))) with (Z.abs k) by lia.
  replace (Z.abs (26 - (26 - k))) with (Z.abs k) by lia.
  reflexivity.
Qed.

Lemma bounded_check (P : Z -> bool) (n : nat) :
  forallb P (map Z.of_nat (seq 0 n)) = true ->
  forall z, 0 <= z < Z.of_nat n -> P z = true.
Proof.
  intros H z Hz. rewrite forallb_forall in H. apply H.
  apply in_map_iff. exists (Z.to_nat z). split; [lia|].
  apply in_seq. lia.
Qed.

(** X2: the age factor peaks at 26. It is exactly 1.0 there, and for
    every other age from 0 to 150 it is a float strictly below 1.0 that
    strictly decreases with each further year away from 26. *)
Theorem age_factor_peaks_at_26 (age : Z) :
  0 <= age <= 150 ->
  age_factor 26 = Ok float_one
  /\ (age <> 26 -> factor_below 26 age = true)
  /\ (26 <= age -> factor_below age (age + 1) = true)
  /\ (age <= 26 -> factor_below age (age - 1) = true).
Proof.
  intros Hage. split; [vm_compute; reflexivity|].
  split; [|split].
  - intros Hne.
    assert (H : (age =? 26) || factor_below 26 age = true).
    { apply (bounded_check (fun a => (a =? 26) || factor_below 26 a) 151);
        [vm_compute; reflexivity | lia]. }
    apply orb_true_iff in H. destruct H as [H | H]; [|exact H].
    apply Z.eqb_eq in H. contradiction.
  - intros Hle.
    assert (H : (age <? 26) || factor_below age (age + 1) = true).
    { apply (bounded_check
               (fun a => (a <? 26) || factor_below a (a + 1)) 151);
        [vm_compute; reflexivity | lia]. }
    apply orb_true_iff in H. destruct H as [H | H]; [|exact H].
    apply Z.ltb_lt in H. lia.
  - intros Hle.
    assert (H : (26 <? age) || factor_below age (age - 1) = true).
    { apply (bounded_check
               (fun a => (26 <? a) || factor_below a (a - 1)) 151);
        [vm_compute; reflexivity | lia]. }
    apply orb_true_iff in H. destruct H as [H | H]; [|exact H].
    apply Z.ltb_lt in H. lia.
Qed.

Lemma age_factor_peaks_at_26_witness :
  factor_below 26 33 = true /\ factor_below 33 34 = true.
Proof.
  destruct (age_factor_peaks_at_26 33) as (_ & Hbelow & Hup & _); [lia|].
  split; [apply Hbelow; lia | apply Hup; lia].
Defined.

Lemma float_of_int_overflows (z : Z) (e : exn) :
  float_of_int z = Raise e -> e = OverflowError.
Proof.
  unfold float_of_int. destruct (binary_normalize prec emax z 0 false);
    cbn; try discriminate. now intros [= <-].
Qed.

Lemma mixed_overflows (op : float -> float -> float) (a : Z) (y : float)
    (e : exn) :
  (x <- float_of_int a ;; Ok (op x y)) = Raise e -> e = OverflowError.
Proof.
  destruct (float_of_int a) eqn:H; cbn [bind]; [discriminate|].
  intros [= <-]. now apply float_of_int_overflows in H.
Qed.

(** X3: the valuation divides by the constant 90 only, so it never fails
    with [ZeroDivisionError], whatever the statistics are: its only
    failures are the [OverflowError] of a number too large for a float
    and the [ValueError] of [int()] on a NaN. *)
Theorem calculate_player_value_failures (p : Player) (e : exn) :
  calculate_player_value p = Raise e ->
  e = OverflowError \/ e = NaNToInteger.
Proof.
  unfold calculate_player_value, int_mul_float, int_sub_float, int_add_float.
  intros H.
  destruct (float_of_int (Z.abs (26 - p_age p))) eqn:E1; cbn [bind] in H;
    [|injection H as <-; left; now apply float_of_int_overflows in E1].
  destruct (float_of_int 1) eqn:E2; cbn [bind] in H;
    [|injection H as <-; left; now apply float_of_int_overflows in E2].
  destruct (int_truediv (minutes_played (p_stats p)) 90) eqn:E3;
    cbn [bind] in H;
    [|injection H as <-; left;
      apply int_truediv_nonzero_error in E3; [assumption|discriminate]].
  destruct (float_mul_int a1 100000) eqn:E4; cbn [bind] in H;
    [|injection H as <-; left; now apply float_mul_int_only_overflows in E4].
  destruct (float_of_int (goals (p_stats p) * 500000
                          + assists (p_stats p) * 300000)) eqn:E5;
    cbn [bind] in H;
    [|injection H as <-; left; now apply float_of_int_overflows in E5].
  destruct (float_of_int (p_rating p * 2000000)) eqn:E6; cbn [bind] in H;
    [|injection H as <-; left; now apply float_of_int_overflows in E6].
  destruct (fadd _ _); cbn in H; try discriminate;
    injection H as <-; auto.
Qed.

Lemma calculate_player_value_failures_witness :
  calculate_player_value colossus = Raise OverflowError
  /\ (OverflowError = OverflowError \/ OverflowError = NaNToInteger).
Proof.
  assert (H : calculate_player_value colossus = Raise OverflowError)
    by (vm_compute; reflexivity).
  split; [exact H|].
  exact (calculate_player_value_failures colossus OverflowError H).
Defined.

(* ================================================================= *)
(** ** Transfers *)

Lemma find_app_first {A : Type} (f : A -> bool) (l1 l2 : list A) (x : A) :
  forallb (fun y => negb (f y)) l1 = true -> f x = true ->
  find f (l1 ++ x :: l2) = Some x.
Proof.
  induction l1 as [|y l1 IH]; cbn; intros H Hx; [now rewrite Hx|].
  apply andb_true_iff in H. destruct H as [Hy H].
  apply negb_true_iff in Hy. rewrite Hy. now apply IH.
Qed.

Lemma update_first_app_first {A : Type} (f : A -> bool) (g : A -> A)
    (l1 l2 : list A) (x : A) :
  forallb (fun y => negb (f y)) l1 = true -> f x = true ->
  update_first f g (l1 ++ x :: l2) = (l1 ++ g x :: l2)%list.
Proof.
  induction l1 as [|y l1 IH]; cbn; intros H Hx; [now rewrite Hx|].
  apply andb_true_iff in H. destruct H as [Hy H].
  apply negb_true_iff in Hy. rewrite Hy. now rewrite IH.
Qed.

(** A transfer that succeeds, read backwards. *)
Lemma transfer_player_ok_inv (today player_name new_team : string)
    (w w' : World) (r : TransferRecord) :
  transfer_player today player_name new_team w = (Ok r, w') ->
  exists p t,
    find_player (data w) player_name = Some p
    /\ find_team (data w) new_team = Some t
    /\ calculate_player_value p = Ok (fee r)
    /\ r = mkTransfer (p_name p) (p_team p) new_team (fee r) today
    /\ w' = mkWorld
              (mkData (teams (data w))
                 (update_first (fun q => same_name_ci (p_name q) player_name)
                               (set_team new_team) (players (data w))))
              (transfer_history w ++ [r]) (match_history w).
Proof.
  unfold transfer_player.
  destruct (find_player (data w) player_name) as [p|]; [|discriminate].
  destruct (find_team (data w) new_team) as [t|]; [|discriminate].
  rewrite calculate_player_value_ignores_team.
  destruct (calculate_player_value p) as [v|] eqn:Hv; [|discriminate].
  intros [= <- <-]. exists p, t. cbn. repeat split; assumption.
Qed.

(** X4: a successful transfer rewrites the [team] field of one record,
    the first whose name matches, and nothing else: every other player,
    every other field, the teams and the match history stay as they
    were, and the transfer history grows by the returned record alone,
    which carries the stored name of the player and the old team. *)
Theorem transfer_rewrites_one_team_field (today player_name new_team : string)
    (w w' : World) (r : TransferRecord) :
  transfer_player today player_name new_team w = (Ok r, w') ->
  exists l1 p l2,
    players (data w) = (l1 ++ p :: l2)%list
    /\ Forall (fun q => lower (p_name q) <> lower player_name) l1
    /\ lower (p_name p) = lower player_name
    /\ players (data w') = (l1 ++ set_team new_team p :: l2)%list
    /\ teams (data w') = teams (data w)
    /\ match_history w' = match_history w
    /\ transfer_history w' = (transfer_history w ++ [r])%list
    /\ r = mkTransfer (p_name p) (p_team p) new_team (fee r) today
    /\ calculate_player_value p = Ok (fee r).
Proof.
  intros H. apply transfer_player_ok_inv in H.
  destruct H as (p & t & Hp & _ & Hv & Hr & ->).
  unfold find_player in Hp.
  destruct (update_first_split _ (set_team new_team) _ _ Hp)
    as (l1 & l2 & Hl & Hu & Hl1).
  exists l1, p, l2. cbn [data players teams match_history transfer_history].
  rewrite Hu. repeat split; try assumption.
  - rewrite forallb_forall in Hl1. apply Forall_forall. intros q Hq.
    specialize (Hl1 q Hq). apply negb_true_iff in Hl1.
    intros Heq. apply same_name_ci_spec in Heq. congruence.
  - apply find_some in Hp. destruct Hp as [_ Hp].
    now apply same_name_ci_spec in Hp.
Qed.

Lemma transfer_rewrites_one_team_field_witness :
  exists l1 p l2,
    Sample.league.(players) = (l1 ++ p :: l2)%list
    /\ p_name p = "Bob"
    /\ players (data (snd (transfer_player Sample.today "BOB" "Blue FC"
                                           Sample.world)))
       = (l1 ++ set_team "Blue FC" p :: l2)%list.
Proof.
  destruct (transfer_rewrites_one_team_field
              Sample.today "BOB" "Blue FC" Sample.world
              (snd (transfer_player Sample.today "BOB" "Blue FC"
                                    Sample.world))
              (mkTransfer "Bob" "Red FC" "Blue FC" 176400000 Sample.today))
    as (l1 & p & l2 & Hl & _ & _ & Hl' & _ & _ & _ & Hr & _).
  - vm_compute. reflexivity.
  - exists l1, p, l2. split; [exact Hl|]. split; [|exact Hl'].
    now injection Hr.
Defined.

(** X5: a failure that is not a lookup failure comes too late to be
    atomic: when the valuation raises, the player has already been moved
    to the new team, and no record is written. *)
Theorem transfer_failure_after_reassignment
    (today player_name new_team : string) (w : World) (p : Player) (t : Team)
    (e : exn) :
  find_player (data w) player_name = Some p ->
  find_team (data w) new_team = Some t ->
  calculate_player_value p = Raise e ->
  exists w',
    transfer_player today player_name new_team w = (Raise e, w')
    /\ find_player (data w') player_name = Some (set_team new_team p)
    /\ transfer_history w' = transfer_history w
    /\ (p_team p <> new_team -> data w' <> data w).
Proof.
  intros Hp Ht Hv. unfold transfer_player. rewrite Hp, Ht.
  rewrite calculate_player_value_ignores_team, Hv.
  eexists. split; [reflexivity|].
  assert (Hfound :
    find_player
      (data (with_players w
               (update_first (fun q => same_name_ci (p_name q) player_name)
                             (set_team new_team) (players (data w)))))
      player_name = Some (set_team new_team p)).
  { unfold find_player in *. cbn [data players with_players].
    apply find_update_first; [assumption|].
    apply find_some in Hp. now destruct Hp. }
  split; [exact Hfound|]. split; [reflexivity|].
  intros Hne Heq. rewrite Heq, Hp in Hfound.
  injection Hfound as Hfound. apply Hne.
  now rewrite Hfound at 1.
Qed.

Lemma transfer_failure_after_reassignment_witness :
  exists w',
    transfer_player Sample.today "colossus" "Blue FC" colossus_world
    = (Raise OverflowError, w')
    /\ find_player (data w') "colossus" = Some (set_team "Blue FC" colossus)
    /\ transfer_history w' = []
    /\ data w' <> data colossus_world.
Proof.
  destruct (transfer_failure_after_reassignment
              Sample.today "colossus" "Blue FC" colossus_world colossus
              Sample.blue OverflowError)
    as (w' & Hrun & Hfound & Hhist & Hdiff).
  - reflexivity.
  - reflexivity.
  - vm_compute. reflexivity.
  - exists w'. repeat split; try assumption.
    apply Hdiff. discriminate.
Defined.

Lemma set_team_back (new_team : string) (p : Player) :
  set_team (p_team p) (set_team new_team p) = p.
Proof. now destruct p. Qed.

Lemma set_team_twice (t1 t2 : string) (p : Player) :
  set_team t2 (set_team t1 p) = set_team t2 p.
Proof. reflexivity. Qed.

(** The state after a successful transfer, seen from the next call. *)
Lemma transfer_player_next (today player_name new_team : string)
    (w w' : World) (r : TransferRecord) :
  transfer_player today player_name new_team w = (Ok r, w') ->
  exists l1 p l2,
    players (data w) = (l1 ++ p :: l2)%list
    /\ forallb (fun q => negb (same_name_ci (p_name q) player_name)) l1
       = true
    /\ same_name_ci (p_name p) player_name = true
    /\ w' = mkWorld (mkData (teams (data w))
                            (l1 ++ set_team new_team p :: l2))
                    (transfer_history w ++ [r]) (match_history w)
    /\ r = mkTransfer (p_name p) (p_team p) new_team (fee r) today
    /\ calculate_player_value p = Ok (fee r).
Proof.
  intros H. apply transfer_player_ok_inv in H.
  destruct H as (p & t & Hp & _ & Hv & Hr & ->).
  unfold find_player in Hp.
  destruct (update_first_split _ (set_team new_team) _ _ Hp)
    as (l1 & l2 & Hl & Hu & Hl1).
  exists l1, p, l2. rewrite Hu. repeat split; try assumption.
  apply find_some in Hp. now destruct Hp.
Qed.

(** X6: two transfers of one player in a row compose: the second one
    succeeds for every team the league knows, leaves from the team the
    first one wrote, charges the same fee (the value does not depend on
    the team), and the history ends with the two records in order. *)
Theorem consecutive_transfers_compose
    (day1 day2 player_name team1 team2 : string) (w w1 : World)
    (r1 : TransferRecord) (t2 : Team) :
  transfer_player day1 player_name team1 w = (Ok r1, w1) ->
  find_team (data w) team2 = Some t2 ->
  exists r2 w2,
    transfer_player day2 player_name team2 w1 = (Ok r2, w2)
    /\ tr_player r2 = tr_player r1
    /\ from_team r2 = to_team r1
    /\ to_team r2 = team2
    /\ fee r2 = fee r1
    /\ transfer_history w2 = (transfer_history w ++ [r1; r2])%list
    /\ data w2 = data (snd (transfer_player day2 player_name team2 w)).
Proof.
  intros H1 Ht2.
  pose proof (transfer_player_next _ _ _ _ _ _ H1)
    as (l1 & p & l2 & Hl & Hl1 & Hp & -> & Hr1 & Hv).
  assert (Hfind1 :
    find_player (mkData (teams (data w)) (l1 ++ set_team team1 p :: l2))
                player_name = Some (set_team team1 p)).
  { unfold find_player. cbn [players]. now apply find_app_first. }
  assert (Hfind0 : find_player (data w) player_name = Some p).
  { unfold find_player. rewrite Hl. now apply find_app_first. }
  unfold transfer_player at 1. cbn [data]. rewrite Hfind1.
  unfold find_team in *. cbn [teams]. rewrite Ht2.
  rewrite !calculate_player_value_ignores_team, Hv.
  eexists. eexists. split; [reflexivity|].
  cbn [tr_player from_team to_team fee transfer_history data with_players
       players teams match_history p_name p_team set_team].
  rewrite Hr1. cbn [tr_player to_team fee].
  repeat split.
  - now rewrite <- app_assoc.
  - unfold transfer_player, find_team. rewrite Hfind0, Ht2.
    rewrite calculate_player_value_ignores_team, Hv.
    cbn [snd data with_players teams players]. rewrite Hl. f_equal.
    rewrite !update_first_app_first by assumption. reflexivity.
Qed.

Lemma consecutive_transfers_compose_witness :
  exists r2 w2,
    transfer_player "2024-05-02" "alice" "Grey FC"
      (snd (transfer_player Sample.today "alice" "Blue FC" Sample.world))
    = (Ok r2, w2)
    /\ from_team r2 = "Blue FC" /\ fee r2 = 146300000.
Proof.
  destruct (consecutive_transfers_compose
              Sample.today "2024-05-02" "alice" "Blue FC" "Grey FC"
              Sample.world
              (snd (transfer_player Sample.today "alice" "Blue FC"
                                    Sample.world))
              (mkTransfer "Alice" "Red FC" "Blue FC" 146300000 Sample.today)
              Sample.grey)
    as (r2 & w2 & Hrun & _ & Hfrom & _ & Hfee & _).
  - vm_compute. reflexivity.
  - reflexivity.
  - exists r2, w2. split; [exact Hrun|]. split; [exact Hfrom | exact Hfee].
Defined.

(** X7: a transfer undone by a transfer back to the old team, spelled as
    the record's [from_team], restores the players and teams exactly;
    only the history remembers the two moves. *)
Theorem transfer_there_and_back
    (day1 day2 player_name new_team : string) (w w1 w2 : World)
    (r1 r2 : TransferRecord) :
  transfer_player day1 player_name new_team w = (Ok r1, w1) ->
  transfer_player day2 player_name (from_team r1) w1 = (Ok r2, w2) ->
  data w2 = data w
  /\ from_team r2 = new_team /\ to_team r2 = from_team r1
  /\ fee r2 = fee r1
  /\ transfer_history w2 = (transfer_history w ++ [r1; r2])%list
  /\ match_history w2 = match_history w.
Proof.
  intros H1 H2.
  pose proof (transfer_player_next _ _ _ _ _ _ H1)
    as (l1 & p & l2 & Hl & Hl1 & Hp & -> & Hr1 & Hv).
  pose proof (transfer_player_next _ _ _ _ _ _ H2)
    as (k1 & q & k2 & Hk & Hk1 & Hq & -> & Hr2 & Hv2).
  cbn [data players teams transfer_history match_history] in *.
  assert (Hfind : find (fun x => same_name_ci (p_name x) player_name)
                       (l1 ++ set_team new_team p :: l2)
                  = Some (set_team new_team p))
    by now apply find_app_first.
  rewrite Hk in Hfind. rewrite (find_app_first _ k1 k2 q Hk1 Hq) in Hfind.
  injection Hfind as ->.
  assert (Hsame :
    (k1 ++ set_team (from_team r1) (set_team new_team p) :: k2)%list
    = (l1 ++ p :: l2)%list).
  { rewrite <- (update_first_app_first
                  (fun x => same_name_ci (p_name x) player_name)
                  (set_team (from_team r1)) k1 k2 _ Hk1 Hq).
    rewrite <- Hk. rewrite update_first_app_first by assumption.
    rewrite Hr1. cbn [from_team]. now rewrite set_team_back. }
  rewrite Hsame, <- Hl.
  rewrite calculate_player_value_ignores_team, Hv in Hv2.
  injection Hv2 as Hfee.
  split; [now destruct (data w)|].
  split; [now rewrite Hr2|].
  split; [now rewrite Hr2|].
  split; [now symmetry|].
  split; [now rewrite <- app_assoc | reflexivity].
Qed.

Lemma transfer_there_and_back_witness :
  data (snd (transfer_player "2024-05-02" "alice" "Red FC"
          (snd (transfer_player Sample.today "alice" "Blue FC"
                                Sample.world))))
  = Sample.league.
Proof.
  destruct (transfer_there_and_back
              Sample.today "2024-05-02" "alice" "Blue FC" Sample.world
              (snd (transfer_player Sample.today "alice" "Blue FC"
                                    Sample.world))
              (snd (transfer_player "2024-05-02" "alice" "Red FC"
                      (snd (transfer_player Sample.today "alice" "Blue FC"
                                            Sample.world))))
              (mkTransfer "Alice" "Red FC" "Blue FC" 146300000 Sample.today)
              (mkTransfer "Alice" "Blue FC" "Red FC" 146300000 "2024-05-02"))
    as (Hdata & _).
  - vm_compute. reflexivity.
  - vm_compute. reflexivity.
  - exact Hdata.
Defined.

Lemma find_update_first_preserving {A : Type} (f g : A -> bool) (h : A -> A)
    (l : list A) :
  (forall x, g (h x) = g x) ->
  match find g l, find g (update_first f h l) with
  | None, None => True
  | Some x, Some y => y = x \/ y = h x
  | _, _ => False
  end.
Proof.
  intros Hg. induction l as [|x l IH]; cbn; [exact I|].
  destruct (f x); cbn.
  - rewrite Hg. destruct (g x); [now right|].
    destruct (find g l); [now left | exact I].
  - destruct (g x); [now left | exact IH].
Qed.

(** Whatever a transfer returns, the players are the old ones or the old
    ones with one team rewritten. *)
Lemma transfer_player_players (today player_name new_team : string)
    (w w' : World) (res : result TransferRecord) :
  transfer_player today player_name new_team w = (res, w') ->
  teams (data w') = teams (data w)
  /\ (players (data w') = players (data w)
      \/ players (data w')
         = update_first (fun q => same_name_ci (p_name q) player_name)
                        (set_team new_team) (players (data w))).
Proof.
  unfold transfer_player.
  destruct (find_player (data w) player_name) as [p|];
    [|intros [= _ <-]; auto].
  destruct (find_team (data w) new_team) as [t|];
    [|intros [= _ <-]; auto].
  destruct (calculate_player_value (set_team new_team p));
    intros [= _ <-]; cbn; auto.
Qed.

(** X8: a transfer, successful or not, changes no valuation and no
    efficiency metric: for every name, the player the lookup finds
    afterwards has the name, the value and the metrics of the player it
    found before. *)
Theorem transfer_leaves_values_and_metrics
    (today player_name new_team : string) (w w' : World)
    (res : result TransferRecord) (n : string) :
  transfer_player today player_name new_team w = (res, w') ->
  calculate_player_efficiency (data w') n
  = calculate_player_efficiency (data w) n
  /\ option_map calculate_player_value (find_player (data w') n)
     = option_map calculate_player_value (find_player (data w) n)
  /\ option_map p_name (find_player (data w') n)
     = option_map p_name (find_player (data w) n).
Proof.
  intros H. apply transfer_player_players in H. destruct H as [_ H].
  unfold calculate_player_efficiency, find_player.
  destruct H as [-> | ->]; [auto|].
  pose proof (find_update_first_preserving
                (fun q => same_name_ci (p_name q) player_name)
                (fun q => same_name_ci (p_name q) n)
                (set_team new_team) (players (data w))
                (fun x => eq_refl)) as Hfind.
  destruct (find _ (players (data w))) as [x|];
    destruct (find _ (update_first _ _ _)) as [y|]; try contradiction;
    [|auto].
  destruct Hfind as [-> | ->]; auto.
Qed.

Lemma transfer_leaves_values_and_metrics_witness :
  calculate_player_efficiency
    (data (snd (transfer_player Sample.today "bob" "Blue FC" Sample.world)))
    "Bob"
  = calculate_player_efficiency Sample.league "Bob".
Proof.
  destruct (transfer_leaves_values_and_metrics
              Sample.today "bob" "Blue FC" Sample.world
              (snd (transfer_player Sample.today "bob" "Blue FC"
                                    Sample.world))
              (fst (transfer_player Sample.today "bob" "Blue FC"
                                    Sample.world))
              "Bob") as (H & _).
  - now destruct (transfer_player Sample.today "bob" "Blue FC" Sample.world).
  - exact H.
Defined.

(* ================================================================= *)
(** ** Team strength *)

Lemma sum_Z_from (l : list Z) (acc : Z) :
  fold_left Z.add l acc = acc + fold_right Z.add 0 l.
Proof.
  revert acc. induction l as [|x l IH]; intros acc; cbn; [lia|].
  rewrite IH. lia.
Qed.

Lemma sum_Z_perm (l l' : list Z) : Permutation l l' -> sum_Z l = sum_Z l'.
Proof.
  intros H. unfold sum_Z. rewrite !sum_Z_from. f_equal.
  induction H; cbn; lia.
Qed.

Lemma filter_perm {A : Type} (f : A -> bool) (l l' : list A) :
  Permutation l l' -> Permutation (filter f l) (filter f l').
Proof.
  induction 1 as [|x l l' H IH|x y l|l l' l'' H1 IH1 H2 IH2]; cbn.
  - constructor.
  - destruct (f x); [now constructor | assumption].
  - destruct (f x), (f y); try reflexivity. apply perm_swap.
  - now transitivity (filter f l').
Qed.

(** X9: the strength of a team does not depend on the order in which the
    players are stored: any rearrangement of the player list gives the
    same result, value or failure. *)
Theorem strength_ignores_player_order (d d' : Data) (team_name : string) :
  Permutation (players d) (players d') ->
  calculate_team_strength d' team_name = calculate_team_strength d team_name.
Proof.
  intros H. unfold calculate_team_strength, team_players.
  pose proof (filter_perm (fun p => String.eqb (p_team p) team_name) _ _ H)
    as Hroster.
  set (r := filter _ (players d)) in *.
  set (r' := filter _ (players d')) in *.
  destruct r as [|x r], r' as [|x' r']; [reflexivity | | |].
  - apply Permutation_nil in Hroster. discriminate.
  - apply Permutation_sym, Permutation_nil in Hroster. discriminate.
  - rewrite (sum_Z_perm _ _ (Permutation_map p_rating Hroster)).
    now rewrite (Permutation_length Hroster).
Qed.

Lemma strength_ignores_player_order_witness :
  calculate_team_strength
    (mkData (teams Sample.league) (rev (players Sample.league))) "Red FC"
  = calculate_team_strength Sample.league "Red FC".
Proof.
  apply strength_ignores_player_order. apply Permutation_rev.
Defined.

(* ================================================================= *)
(** ** Event generation: the edges *)

(** X10: without a positive goal count on either side the call returns the
    empty list and consumes no draw, whatever the rosters are; a negative
    count is an empty [range], and the team names need not even exist. *)
Theorem no_goals_no_events (d : Data) (home away : string) (hg ag : Z)
    (ds : list nat) :
  hg <= 0 -> ag <= 0 ->
  generate_match_events d home away hg ag ds = Done [] ds.
Proof.
  intros Hh Ha. unfold generate_match_events, generated_events.
  replace (Z.to_nat hg) with 0%nat by lia.
  replace (Z.to_nat ag) with 0%nat by lia.
  reflexivity.
Qed.

Lemma no_goals_no_events_witness :
  generate_match_events Sample.league "Nowhere FC" "Ghost FC" (-2) 0
                        [4; 5]%nat
  = Done [] [4; 5]%nat.
Proof. apply no_goals_no_events; lia. Defined.

Lemma goal_event_empty_roster (t : string) (d0 : nat) (ds : list nat) :
  goal_event t [] (d0 :: ds) = Failed IndexError.
Proof. reflexivity. Qed.

(** X11: a side that is to score but has no player makes the call fail
    with the [IndexError] of [random.choice] on an empty sequence, as
    soon as the minute of its first goal is drawn. For the away side this
    happens after the home goals were generated. *)
Theorem empty_roster_raises_index_error (d : Data) (home away : string)
    (hg ag : Z) :
  (team_players d home = [] -> 0 < hg ->
   forall d0 ds,
     generate_match_events d home away hg ag (d0 :: ds) = Failed IndexError)
  /\ (team_players d away = [] -> 0 < ag ->
      forall ds hs d0 rest,
        goal_events (Z.to_nat hg) home (team_players d home) ds
        = Done hs (d0 :: rest) ->
        generate_match_events d home away hg ag ds = Failed IndexError).
Proof.
  split.
  - intros Hroster Hpos d0 ds.
    unfold generate_match_events, generated_events. rewrite Hroster.
    destruct (Z.to_nat hg) as [|n] eqn:Hn; [lia|]. reflexivity.
  - intros Hroster Hpos ds hs d0 rest Hhome.
    unfold generate_match_events, generated_events, rbind.
    rewrite Hhome, Hroster.
    destruct (Z.to_nat ag) as [|n] eqn:Hn; [lia|]. reflexivity.
Qed.

Lemma empty_roster_raises_index_error_witness :
  generate_match_events Sample.league "Ghost FC" "Red FC" 1 1 [3; 1; 4]%nat
  = Failed IndexError
  /\ generate_match_events Sample.league "Red FC" "Ghost FC" 1 1
                           [3; 0; 1; 4]%nat
     = Failed IndexError.
Proof.
  destruct (empty_roster_raises_index_error
              Sample.league "Ghost FC" "Red FC" 1 1) as [H1 _].
  destruct (empty_roster_raises_index_error
              Sample.league "Red FC" "Ghost FC" 1 1) as [_ H2].
  split.
  - apply H1; [reflexivity|lia].
  - apply (H2 eq_refl ltac:(lia) _
              [mkEvent 4 "goal" "Red FC" "Alice" "Bob"] 4%nat []).
    vm_compute. reflexivity.
Defined.

Lemma pick_all_equal (roster : list Player) (p default : Player) (d : nat) :
  roster <> [] -> (forall q, In q roster -> q = p) ->
  pick roster default d = p.
Proof.
  intros Hne Hall. apply Hall. now apply pick_In.
Qed.

Lemma redraw_assist_all_equal (roster : list Player) (p : Player) :
  roster <> [] -> (forall q, In q roster -> q = p) ->
  forall ds, redraw_assist roster p p ds = Starved.
Proof.
  intros Hne Hall. induction ds as [|d ds IH]; cbn [redraw_assist];
    rewrite player_eqb_refl; [reflexivity|].
  now rewrite (pick_all_equal roster p p d Hne Hall).
Qed.

Lemma goal_event_all_equal (t : string) (roster : list Player) (p : Player) :
  roster <> [] -> (forall q, In q roster -> q = p) ->
  forall ds, goal_event t roster ds = Starved.
Proof.
  intros Hne Hall ds. unfold goal_event, rbind, randint, choice.
  destruct roster as [|x roster]; [contradiction|].
  destruct ds as [|d1 [|d2 [|d3 ds]]]; try reflexivity.
  rewrite !(pick_all_equal (x :: roster) p x _ Hne Hall).
  now rewrite redraw_assist_all_equal.
Qed.

(** X12: two players on the roster are not enough when they are equal
    records: the loop compares the dictionaries by value, so on a roster
    whose records are all equal (one record stored twice, say) the call
    never returns, on any sequence of draws. *)
Theorem equal_records_roster_never_returns (d : Data) (home away : string)
    (hg ag : Z) (p : Player) :
  team_players d home <> [] ->
  (forall q, In q (team_players d home) -> q = p) ->
  0 < hg ->
  forall ds, generate_match_events d home away hg ag ds = Starved.
Proof.
  intros Hne Hall Hpos ds.
  unfold generate_match_events, generated_events.
  destruct (Z.to_nat hg) as [|n] eqn:Hn; [lia|].
  do 2 apply rbind_starved. cbn [goal_events]. apply rbind_starved.
  now apply (goal_event_all_equal home _ p).
Qed.

Lemma equal_records_roster_never_returns_witness :
  generate_match_events
    (mkData [Sample.red] [Sample.alice; Sample.carol; Sample.alice])
    "Red FC" "Blue FC" 1 0 [5; 1; 0; 1; 1; 0; 1]%nat
  = Starved.
Proof.
  apply (equal_records_roster_never_returns _ _ _ _ _ Sample.alice).
  - discriminate.
  - cbn. intros q [<- | [<- | []]]; reflexivity.
  - lia.
Defined.

(** X13: every returned event is a goal of one of the two teams, and its
    scorer and its assist are the names of two players of the league
    whose [team] field is the team of the event and who differ as
    records. *)
Theorem events_name_players_of_the_team (d : Data) (home away : string)
    (hg ag : Z) (ds rest : list nat) (evs : list MatchEvent) :
  generate_match_events d home away hg ag ds = Done evs rest ->
  Forall (fun e =>
            ev_type e = "goal"
            /\ (ev_team e = home \/ ev_team e = away)
            /\ exists s a,
                 In s (players d) /\ In a (players d)
                 /\ p_team s = ev_team e /\ p_team a = ev_team e
                 /\ p_name s = scorer e /\ p_name a = assist e
                 /\ a <> s) evs.
Proof.
  intros H.
  apply generate_match_events_done in H. destruct H as (raw & Hraw & ->).
  apply generated_events_done in Hraw.
  destruct Hraw as (hs & aws & -> & _ & _ & Hhs & Haws).
  apply (Permutation_Forall (sort_by_minute_perm _)).
  apply Forall_app. split.
  - eapply Forall_impl; [|exact Hhs].
    intros e (_ & Htype & Hteam & s & a & Hs & Ha & Hne & Hsn & Han).
    apply team_players_spec in Hs, Ha.
    repeat split; auto. exists s, a. rewrite Hteam. intuition congruence.
  - eapply Forall_impl; [|exact Haws].
    intros e (_ & Htype & Hteam & s & a & Hs & Ha & Hne & Hsn & Han).
    apply team_players_spec in Hs, Ha.
    repeat split; auto. exists s, a. rewrite Hteam. intuition congruence.
Qed.

Lemma events_name_players_of_the_team_witness :
  Forall (fun e =>
            ev_type e = "goal"
            /\ (ev_team e = "Red FC" \/ ev_team e = "Blue FC")
            /\ exists s a,
                 In s (players Sample.league) /\ In a (players Sample.league)
                 /\ p_team s = ev_team e /\ p_team a = ev_team e
                 /\ p_name s = scorer e /\ p_name a = assist e
                 /\ a <> s)
         [mkEvent 10 "goal" "Red FC" "Bob" "Alice";
          mkEvent 10 "goal" "Blue FC" "Dave" "Carol";
          mkEvent 45 "goal" "Red FC" "Alice" "Bob"].
Proof.
  apply (events_name_players_of_the_team
           Sample.league "Red FC" "Blue FC" 2 1
           [44; 0; 0; 1; 9; 1; 0; 9; 3; 2]%nat []).
  vm_compute. reflexivity.
Defined.

(* ================================================================= *)
(** ** Statistic updates: the edges *)

Lemma update_event_not_goal (e : MatchEvent) (ps : list Player) :
  is_goal e = false -> update_event e ps = (Ok tt, ps).
Proof. unfold update_event, is_goal. now intros ->. Qed.

(** X14: events of any other type than ['goal'] are skipped: the update
    is the update by the goal events alone, in their order. *)
Theorem update_stats_skips_other_events (evs : list MatchEvent)
    (ps : list Player) :
  update_events evs ps = update_events (filter is_goal evs) ps.
Proof.
  revert ps. induction evs as [|e evs IH]; intros ps; [reflexivity|].
  cbn [filter]. destruct (is_goal e) eqn:He.
  - cbn [update_events]. destruct (update_event e ps) as [[[]|] ps1];
      [apply IH | reflexivity].
  - cbn [update_events]. rewrite (update_event_not_goal e ps He). apply IH.
Qed.

Lemma find_by_name_none (name : string) (ps : list Player) :
  ~ In name (map p_name ps) ->
  find (fun q => String.eqb (p_name q) name) ps = None.
Proof.
  induction ps as [|q ps IH]; cbn; [reflexivity|]. intros H.
  destruct (String.eqb (p_name q) name) eqn:Hq.
  - apply String.eqb_eq in Hq. tauto.
  - apply IH. tauto.
Qed.

Lemma update_event_unknown_scorer (e : MatchEvent) (ps : list Player) :
  is_goal e = true -> ~ In (scorer e) (map p_name ps) ->
  update_event e ps = (Raise StopIteration, ps).
Proof.
  unfold update_event, is_goal, update_named. intros -> H.
  now rewrite (find_by_name_none _ _ H).
Qed.

Lemma update_event_unknown_assist (e : MatchEvent) (ps : list Player) :
  is_goal e = true -> In (scorer e) (map p_name ps) ->
  ~ In (assist e) (map p_name ps) ->
  exists ps1,
    update_event e ps = (Raise StopIteration, ps1)
    /\ total goals ps1 = total goals ps + 1
    /\ total assists ps1 = total assists ps.
Proof.
  unfold update_event, is_goal. intros -> Hs Ha.
  destruct (update_named_effect (scorer e) add_goal 1 0 ps
              add_goal_effect Hs) as (ps1 & -> & Hg1 & Ha1 & Hr1).
  rewrite <- (names_of_without_tallies _ _ Hr1) in Ha.
  unfold update_named. rewrite (find_by_name_none _ _ Ha).
  exists ps1. repeat split; lia.
Qed.

(** X15: the update is not atomic. It stops with [StopIteration] at the
    first goal event that names an unknown player, and keeps what it has
    written so far: the increments of all the events before it, and, when
    only the assist is unknown, the goal of that event's scorer too. *)
Theorem update_stats_stops_at_unknown_name (mr : MatchResult) (w : World)
    (before after : list MatchEvent) (e : MatchEvent) :
  events mr = (before ++ e :: after)%list ->
  Forall (resolvable (players (data w))) before ->
  is_goal e = true ->
  (~ In (scorer e) (map p_name (players (data w))) ->
   exists w',
     update_stats mr w = (Raise StopIteration, w')
     /\ total goals (players (data w'))
        = total goals (players (data w)) + Z.of_nat (List.length before)
     /\ total assists (players (data w'))
        = total assists (players (data w)) + Z.of_nat (List.length before))
  /\ (In (scorer e) (map p_name (players (data w))) ->
      ~ In (assist e) (map p_name (players (data w))) ->
      exists w',
        update_stats mr w = (Raise StopIteration, w')
        /\ total goals (players (data w'))
           = total goals (players (data w))
             + Z.of_nat (List.length before) + 1
        /\ total assists (players (data w'))
           = total assists (players (data w))
             + Z.of_nat (List.length before)).
Proof.
  intros Hevs Hbefore Hgoal. unfold update_stats. rewrite Hevs.
  assert (Hrun : forall l ps,
    Forall (resolvable ps) l ->
    exists ps1,
      update_events (l ++ e :: after) ps
      = (let (r, ps2) := update_event e ps1 in
         match r with
         | Ok _ => update_events after ps2
         | Raise x => (Raise x, ps2)
         end)
      /\ total goals ps1 = total goals ps + Z.of_nat (List.length l)
      /\ total assists ps1 = total assists ps + Z.of_nat (List.length l)
      /\ map p_name ps1 = map p_name ps).
  { induction l as [|x l IH]; intros ps Hall.
    - exists ps. cbn [app update_events List.length].
      destruct (update_event e ps) as [[[]|] ps2];
        repeat split; try reflexivity; lia.
    - inversion Hall as [|? ? Hx Hl]; subst.
      destruct (update_event_effect x ps Hx)
        as (ps1 & H1 & Hg1 & Ha1 & Hr1).
      destruct (IH ps1) as (ps2 & H2 & Hg2 & Ha2 & Hn2).
      { eapply Forall_impl; [|exact Hl]. intros y.
        now apply resolvable_transport. }
      exists ps2. cbn [app update_events]. rewrite H1, H2.
      cbn [List.length].
      rewrite Hn2, (names_of_without_tallies _ _ Hr1).
      repeat split; try reflexivity; lia. }
  destruct (Hrun before _ Hbefore) as (ps1 & -> & Hg & Ha & Hn).
  split.
  - intros Hs. rewrite <- Hn in Hs.
    rewrite (update_event_unknown_scorer e ps1 Hgoal Hs).
    eexists. split; [reflexivity|]. cbn [data players with_players].
    split; assumption.
  - intros Hs Has. rewrite <- Hn in Hs, Has.
    destruct (update_event_unknown_assist e ps1 Hgoal Hs Has)
      as (ps2 & -> & Hg2 & Ha2).
    eexists. split; [reflexivity|]. cbn [data players with_players].
    split; lia.
Qed.

Lemma update_stats_stops_at_unknown_name_witness :
  exists w',
    update_stats
      (mkMatch "Red FC" "Blue FC" 2 0
               [mkEvent 10 "goal" "Red FC" "Bob" "Alice";
                mkEvent 45 "goal" "Red FC" "Alice" "Nobody"] Sample.today)
      Sample.world = (Raise StopIteration, w')
    /\ total goals (players (data w')) = 7 + 1 + 1
    /\ total assists (players (data w')) = 6 + 1.
Proof.
  destruct (update_stats_stops_at_unknown_name
              (mkMatch "Red FC" "Blue FC" 2 0
                 [mkEvent 10 "goal" "Red FC" "Bob" "Alice";
                  mkEvent 45 "goal" "Red FC" "Alice" "Nobody"] Sample.today)
              Sample.world
              [mkEvent 10 "goal" "Red FC" "Bob" "Alice"] []
              (mkEvent 45 "goal" "Red FC" "Alice" "Nobody"))
    as [_ H].
  - reflexivity.
  - repeat constructor; cbn; tauto.
  - reflexivity.
  - apply H.
    + cbn. tauto.
    + cbn. intros [H' | [H' | [H' | [H' | [H' | []]]]]]; discriminate H'.
Defined.

Lemma map_update_first {A B : Type} (h : A -> B) (f : A -> bool)
    (g : A -> A) (l : list A) :
  (forall x, h (g x) = h x) -> map h (update_first f g l) = map h l.
Proof.
  intros Hg. induction l as [|x l IH]; cbn; [reflexivity|].
  destruct (f x); cbn; [now rewrite Hg | now rewrite IH].
Qed.

Lemma Forall2_update_first {A : Type} (R : A -> A -> Prop) (f : A -> bool)
    (g : A -> A) (l : list A) :
  (forall x, R x x) -> (forall x, R x (g x)) ->
  Forall2 R l (update_first f g l).
Proof.
  intros Hrefl Hg. induction l as [|x l IH]; cbn; [constructor|].
  destruct (f x); constructor; auto.
  clear IH. induction l; constructor; auto.
Qed.

Lemma Forall2_trans {A : Type} (R : A -> A -> Prop) :
  (forall x y z, R x y -> R y z -> R x z) ->
  forall l1 l2 l3, Forall2 R l1 l2 -> Forall2 R l2 l3 -> Forall2 R l1 l3.
Proof.
  intros Htrans l1 l2 l3 H12. revert l3.
  induction H12 as [|x y l1 l2 Hxy H12 IH]; intros l3 H23;
    inversion H23; subst; constructor; eauto.
Qed.

Lemma Forall2_refl {A : Type} (R : A -> A -> Prop) (l : list A) :
  (forall x, R x x) -> Forall2 R l l.
Proof. intros H. induction l; constructor; auto. Qed.

Lemma tallies_grow_refl (p : Player) : tallies_grow p p.
Proof. unfold tallies_grow. lia. Qed.

Lemma tallies_grow_trans (p q r : Player) :
  tallies_grow p q -> tallies_grow q r -> tallies_grow p r.
Proof. unfold tallies_grow. lia. Qed.

Lemma update_named_frame (name : string) (g : Player -> Player)
    (ps ps' : list Player) :
  (forall p, without_tallies (g p) = without_tallies p) ->
  (forall p, tallies_grow p (g p)) ->
  update_named name g ps = Ok ps' ->
  map without_tallies ps' = map without_tallies ps
  /\ Forall2 tallies_grow ps ps'.
Proof.
  intros Hg Hgrow. unfold update_named.
  destruct (find _ ps); [|discriminate]. intros [= <-]. split.
  - now apply map_update_first.
  - apply Forall2_update_first; [apply tallies_grow_refl | assumption].
Qed.

Lemma update_event_frame (e : MatchEvent) (ps ps' : list Player)
    (r : result unit) :
  update_event e ps = (r, ps') ->
  map without_tallies ps' = map without_tallies ps
  /\ Forall2 tallies_grow ps ps'.
Proof.
  assert (Hid : map without_tallies ps = map without_tallies ps
                /\ Forall2 tallies_grow ps ps)
    by (split; [reflexivity | apply Forall2_refl, tallies_grow_refl]).
  unfold update_event. destruct (String.eqb (ev_type e) "goal");
    [|now intros [= _ <-]].
  destruct (update_named (scorer e) add_goal ps) as [ps1|] eqn:H1;
    [|now intros [= _ <-]].
  apply update_named_frame in H1;
    [|intros p; apply add_goal_effect
     |intros p; unfold tallies_grow; cbn; lia].
  destruct H1 as [Hf1 Hg1].
  destruct (update_named (assist e) add_assist ps1) as [ps2|] eqn:H2;
    [|now intros [= _ <-]].
  apply update_named_frame in H2;
    [|intros p; apply add_assist_effect
     |intros p; unfold tallies_grow; cbn; lia].
  destruct H2 as [Hf2 Hg2]. intros [= _ <-]. split; [congruence|].
  eapply Forall2_trans; eauto using tallies_grow_trans.
Qed.

Lemma update_events_frame (evs : list MatchEvent) :
  forall (ps ps' : list Player) (r : result unit),
    update_events evs ps = (r, ps') ->
    map without_tallies ps' = map without_tallies ps
    /\ Forall2 tallies_grow ps ps'.
Proof.
  induction evs as [|e evs IH]; intros ps ps' r; cbn [update_events].
  - intros [= _ <-]. split; [reflexivity|].
    apply Forall2_refl, tallies_grow_refl.
  - destruct (update_event e ps) as [[[]|x] ps1] eqn:He;
      apply update_event_frame in He; destruct He as [Hf1 Hg1].
    + intros H. apply IH in H. destruct H as [Hf2 Hg2].
      split; [congruence|].
      eapply Forall2_trans; eauto using tallies_grow_trans.
    + intros [= _ <-]. auto.
Qed.

Lemma roster_ratings_of_frame (t : string) (ps ps' : list Player) :
  map without_tallies ps' = map without_tallies ps ->
  map p_rating (filter (fun p => String.eqb (p_team p) t) ps')
  = map p_rating (filter (fun p => String.eqb (p_team p) t) ps).
Proof.
  revert ps. induction ps' as [|p' ps' IH]; intros [|p ps]; cbn;
    try discriminate; [reflexivity|].
  intros [= Hn Ht Ha Hr Hp Hm Hs Hrest].
  rewrite Ht. destruct (String.eqb (p_team p) t); cbn;
    rewrite (IH ps Hrest); congruence.
Qed.

Lemma strength_by_ratings (d : Data) (t : string) :
  calculate_team_strength d t
  = match map p_rating (team_players d t) with
    | [] => Raise (NoPlayersFound t)
    | rs => int_truediv (sum_Z rs) (Z.of_nat (List.length rs))
    end.
Proof.
  unfold calculate_team_strength.
  destruct (team_players d t) as [|p r]; [reflexivity|].
  cbn [map]. now rewrite <- (length_map p_rating (p :: r)).
Qed.

(** X16: whatever [update_stats] returns, success or [StopIteration], it has
    touched nothing but the two tallies, and those only upwards: the
    players keep their order, names, teams, ages, ratings, positions,
    minutes and shots, no [goals] or [assists] field decreases, the teams
    and the histories are unchanged, and so the strength of every team is
    what it was before the match. *)
Theorem update_stats_frame (mr : MatchResult) (w w' : World)
    (r : result unit) :
  update_stats mr w = (r, w') ->
  map without_tallies (players (data w'))
  = map without_tallies (players (data w))
  /\ Forall2 tallies_grow (players (data w)) (players (data w'))
  /\ teams (data w') = teams (data w)
  /\ transfer_history w' = transfer_history w
  /\ match_history w' = match_history w
  /\ forall t, calculate_team_strength (data w') t
               = calculate_team_strength (data w) t.
Proof.
  unfold update_stats.
  destruct (update_events (events mr) (players (data w))) as [r' ps] eqn:H.
  intros [= _ <-]. apply update_events_frame in H. destruct H as [Hf Hg].
  cbn [data players teams with_players transfer_history match_history].
  repeat split; try assumption.
  intros t. rewrite !strength_by_ratings. unfold team_players.
  cbn [players]. now rewrite (roster_ratings_of_frame t _ _ Hf).
Qed.

Lemma update_stats_frame_witness :
  calculate_team_strength
    (data (snd (update_stats
                  (mkMatch "Red FC" "Blue FC" 1 0
                     [mkEvent 10 "goal" "Red FC" "Bob" "Nobody"]
                     Sample.today) Sample.world))) "Red FC"
  = calculate_team_strength Sample.league "Red FC".
Proof.
  destruct (update_stats_frame
              (mkMatch "Red FC" "Blue FC" 1 0
                 [mkEvent 10 "goal" "Red FC" "Bob" "Nobody"] Sample.today)
              Sample.world
              (snd (update_stats
                      (mkMatch "Red FC" "Blue FC" 1 0
                         [mkEvent 10 "goal" "Red FC" "Bob" "Nobody"]
                         Sample.today) Sample.world))
              (Raise StopIteration))
    as (_ & _ & _ & _ & _ & H).
  - vm_compute. reflexivity.
  - apply H.
Defined.

(* ================================================================= *)
(** ** The simulation of a match *)

Lemma lift_failed {A : Type} (r : result A) (ds : list nat) (e : exn) :
  lift r ds = Failed e -> r = Raise e.
Proof. unfold lift. destruct r; [discriminate|]. now intros [= ->]. Qed.

Lemma filter_all {A : Type} (f : A -> bool) (l : list A) :
  Forall (fun x => f x = true) l -> filter f l = l.
Proof.
  induction 1 as [|x l Hx _ IH]; cbn; [reflexivity|]. now rewrite Hx, IH.
Qed.

Lemma filter_none {A : Type} (f : A -> bool) (l : list A) :
  Forall (fun x => f x = false) l -> filter f l = [].
Proof.
  induction 1 as [|x l Hx _ IH]; cbn; [reflexivity|]. now rewrite Hx.
Qed.

Lemma strength_failures (d : Data) (t : string) (e : exn) :
  calculate_team_strength d t = Raise e ->
  (team_players d t = [] /\ e = NoPlayersFound t)
  \/ (team_players d t <> [] /\ e = OverflowError).
Proof.
  unfold calculate_team_strength.
  destruct (team_players d t) as [|p r] eqn:Hr.
  - intros [= <-]. now left.
  - intros H. right. split; [discriminate|].
    apply int_truediv_nonzero_error in H; [assumption|]. cbn. lia.
Qed.

Lemma strength_ok_roster (d : Data) (t : string) (x : float) :
  calculate_team_strength d t = Ok x -> team_players d t <> [].
Proof.
  unfold calculate_team_strength.
  destruct (team_players d t); [discriminate|]. intros _. discriminate.
Qed.

Lemma generate_match_events_failed (d : Data) (home away : string)
    (hg ag : Z) (ds : list nat) (e : exn) :
  generate_match_events d home away hg ag ds = Failed e ->
  e = IndexError /\ (team_players d home = [] \/ team_players d away = []).
Proof.
  unfold generate_match_events, generated_events. intros H.
  apply rbind_failed in H. destruct H as [H | (raw & mid & _ & H)];
    [|discriminate].
  apply rbind_failed in H. destruct H as [H | (hs & mid & _ & H)].
  { apply goal_events_failed in H. tauto. }
  apply rbind_failed in H. destruct H as [H | (aws & mid' & _ & H)];
    [|discriminate].
  apply goal_events_failed in H. tauto.
Qed.

Section SimulationShape.

Variable gauss_sample : float -> float -> nat -> float.

Lemma draw_goals_failed (strength : float) (ds : list nat) (e : exn) :
  draw_goals gauss_sample strength ds = Failed e ->
  e = OverflowError \/ e = NaNToInteger.
Proof.
  unfold draw_goals, float_div_int.
  change (float_of_int 20) with (Ok (S754_finite false 5629499534213120 (-48))).
  change (float_of_int 1) with (Ok float_one).
  cbn [bind float_truediv]. unfold rbind, gauss, lift.
  destruct ds as [|d ds]; [discriminate|].
  match goal with
  | |- context [gauss_sample ?mu ?sigma d] =>
      destruct (gauss_sample mu sigma d) as [s|s| |s m x]
  end; cbn [int_of_float]; try discriminate; intros [= <-]; auto.
Qed.

(** What [prepare_match] has done when it returns. *)
Lemma prepare_match_done (today home away : string) (d : Data)
    (ds rest : list nat) (mr : MatchResult) :
  prepare_match gauss_sample today home away d ds = Done mr rest ->
  exists th ta mid,
    find_team d home = Some th /\ find_team d away = Some ta
    /\ team_players d (t_name th) <> []
    /\ team_players d (t_name ta) <> []
    /\ home_team mr = t_name th /\ away_team mr = t_name ta
    /\ m_date mr = today
    /\ 0 <= home_goals mr /\ 0 <= away_goals mr
    /\ generate_match_events d (t_name th) (t_name ta)
                             (home_goals mr) (away_goals mr) mid
       = Done (events mr) rest.
Proof.
  unfold prepare_match.
  destruct (find_team d home) as [th|]; [|discriminate].
  destruct (find_team d away) as [ta|]; [|discriminate].
  intros H.
  apply rbind_done in H. destruct H as (s1 & ds1 & Hs1 & H).
  apply rbind_done in H. destruct H as (s2 & ds2 & Hs2 & H).
  apply rbind_done in H. destruct H as (hg & ds3 & Hhg & H).
  apply rbind_done in H. destruct H as (ag & ds4 & Hag & H).
  apply rbind_done in H. destruct H as (evs & ds5 & Hevs & H).
  apply ret_done in H. destruct H as [<- <-].
  apply lift_done in Hs1, Hs2. destruct Hs1 as [Hs1 _], Hs2 as [Hs2 _].
  apply strength_ok_roster in Hs1, Hs2.
  apply draw_goals_nonneg in Hhg, Hag.
  exists th, ta, ds4. cbn. repeat split; assumption.
Qed.

Lemma prepare_match_failed (today home away : string) (d : Data)
    (ds : list nat) (e : exn) :
  prepare_match gauss_sample today home away d ds = Failed e ->
  simulation_failure e.
Proof.
  unfold prepare_match.
  destruct (find_team d home) as [th|];
    [|intros H; apply lift_failed in H; now injection H as <-].
  destruct (find_team d away) as [ta|];
    [|intros H; apply lift_failed in H; now injection H as <-].
  intros H.
  apply rbind_failed in H. destruct H as [H | (s1 & ds1 & Hs1 & H)].
  { apply lift_failed, strength_failures in H.
    destruct H as [[_ ->] | [_ ->]]; exact I. }
  apply rbind_failed in H. destruct H as [H | (s2 & ds2 & Hs2 & H)].
  { apply lift_failed, strength_failures in H.
    destruct H as [[_ ->] | [_ ->]]; exact I. }
  apply lift_done in Hs1, Hs2. destruct Hs1 as [Hs1 _], Hs2 as [Hs2 _].
  apply strength_ok_roster in Hs1, Hs2.
  apply rbind_failed in H. destruct H as [H | (hg & ds3 & _ & H)].
  { apply draw_goals_failed in H. destruct H as [-> | ->]; exact I. }
  apply rbind_failed in H. destruct H as [H | (ag & ds4 & _ & H)].
  { apply draw_goals_failed in H. destruct H as [-> | ->]; exact I. }
  apply rbind_failed in H. destruct H as [H | (evs & ds5 & _ & H)];
    [|discriminate].
  apply generate_match_events_failed in H. tauto.
Qed.

Lemma simulate_match_done (today home away : string) (w w' : World)
    (ds rest : list nat) (mr : MatchResult) :
  simulate_match gauss_sample today home away w ds = (Done mr rest, w') ->
  prepare_match gauss_sample today home away (data w) ds = Done mr rest
  /\ update_stats mr (mkWorld (data w) (transfer_history w)
                              (match_history w ++ [mr])) = (Ok tt, w').
Proof.
  unfold simulate_match.
  destruct (prepare_match gauss_sample today home away (data w) ds)
    as [mr' rest'|e|]; try discriminate.
  destruct (update_stats mr' _) as [[[]|e] w2] eqn:Hu; [|discriminate].
  now intros [= <- <- <-].
Qed.

End SimulationShape.

Lemma update_stats_world (mr : MatchResult) (w w' : World)
    (r : result unit) :
  update_stats mr w = (r, w') ->
  teams (data w') = teams (data w)
  /\ transfer_history w' = transfer_history w
  /\ match_history w' = match_history w.
Proof.
  unfold update_stats.
  destruct (update_events (events mr) (players (data w))) as [r' ps].
  intros [= _ <-]. auto.
Qed.

(** X17: the result of a simulated match is consistent. It carries the
    stored names of the two teams, whatever spelling the caller used, and
    the date of the day; the goals are not negative; the events are
    sorted by minute and are as many as the goals, and when the two teams
    differ each side has exactly as many events as goals; both sides have
    players. The result is the one entry added to the match history. *)
Theorem simulate_match_result_is_consistent
    (gauss_sample : float -> float -> nat -> float)
    (today home away : string) (w w' : World) (ds rest : list nat)
    (mr : MatchResult) :
  simulate_match gauss_sample today home away w ds = (Done mr rest, w') ->
  exists th ta,
    find_team (data w) home = Some th /\ find_team (data w) away = Some ta
    /\ home_team mr = t_name th /\ away_team mr = t_name ta
    /\ m_date mr = today
    /\ 0 <= home_goals mr /\ 0 <= away_goals mr
    /\ Sorted by_minute (events mr)
    /\ Z.of_nat (List.length (events mr)) = home_goals mr + away_goals mr
    /\ (home_team mr <> away_team mr ->
        goals_of (home_team mr) mr = home_goals mr
        /\ goals_of (away_team mr) mr = away_goals mr)
    /\ team_players (data w) (home_team mr) <> []
    /\ team_players (data w) (away_team mr) <> []
    /\ match_history w' = (match_history w ++ [mr])%list
    /\ transfer_history w' = transfer_history w
    /\ teams (data w') = teams (data w).
Proof.
  intros H. apply simulate_match_done in H. destruct H as [Hprep Hupd].
  apply prepare_match_done in Hprep.
  destruct Hprep as (th & ta & mid & Hth & Hta & Hrh & Hra & Hh & Ha & Hd
                     & Hhg & Hag & Hevs).
  apply update_stats_world in Hupd. destruct Hupd as (Hteams & Htr & Hmh).
  apply generate_match_events_done in Hevs.
  destruct Hevs as (raw & Hraw & Hevs).
  apply generated_events_done in Hraw.
  destruct Hraw as (hs & aws & -> & Hlh & Hla & Hhs & Haws).
  assert (Hsorted : Sorted by_minute (events mr))
    by (rewrite Hevs; apply sort_by_minute_sorted).
  assert (Hperm : Permutation (hs ++ aws) (events mr))
    by (rewrite Hevs; apply sort_by_minute_perm).
  apply (Forall_impl _ (fun e He => proj1 (attributed_team _ _ e He)))
    in Hhs, Haws.
  clear Hevs. exists th, ta. rewrite Hh, Ha.
  repeat split; try assumption.
  - rewrite <- (Permutation_length Hperm), length_app. lia.
  - unfold goals_of.
    rewrite <- (Permutation_length (filter_perm _ _ _ Hperm)), filter_app.
    rewrite (filter_all _ hs), (filter_none _ aws), app_nil_r; [lia| |].
    + eapply Forall_impl; [|exact Haws]. intros e ->.
      apply String.eqb_neq. congruence.
    + eapply Forall_impl; [|exact Hhs]. intros e ->. apply String.eqb_refl.
  - unfold goals_of.
    rewrite <- (Permutation_length (filter_perm _ _ _ Hperm)), filter_app.
    rewrite (filter_none _ hs), (filter_all _ aws); [cbn [app]; lia| |].
    + eapply Forall_impl; [|exact Haws]. intros e ->. apply String.eqb_refl.
    + eapply Forall_impl; [|exact Hhs]. intros e ->.
      apply String.eqb_neq. congruence.
Qed.

Lemma simulate_match_result_is_consistent_witness :
  exists mr w',
    simulate_match draw_as_sample Sample.today "red fc" "BLUE FC" Sample.world
                   [2; 1; 44; 0; 0; 1; 9; 1; 0; 9; 3; 2]%nat
    = (Done mr [], w')
    /\ home_team mr = "Red FC" /\ away_team mr = "Blue FC"
    /\ goals_of "Red FC" mr = 2 /\ goals_of "Blue FC" mr = 1.
Proof.
  destruct (simulate_match draw_as_sample Sample.today "red fc" "BLUE FC"
              Sample.world [2; 1; 44; 0; 0; 1; 9; 1; 0; 9; 3; 2]%nat)
    as [out w'] eqn:Hrun.
  assert (Hout : exists mr, out = Done mr []
                            /\ home_team mr = "Red FC"
                            /\ away_team mr = "Blue FC"
                            /\ home_goals mr = 2 /\ away_goals mr = 1).
  { vm_compute in Hrun. injection Hrun as <- _.
    eexists. repeat split. }
  destruct Hout as (mr & -> & Hh & Ha & Hhg & Hag).
  destruct (simulate_match_result_is_consistent _ _ _ _ _ _ _ _ _ Hrun)
    as (th & ta & _ & _ & _ & _ & _ & _ & _ & _ & _ & Hcount & _).
  exists mr, w'. split; [reflexivity|]. split; [exact Hh|].
  split; [exact Ha|].
  rewrite Hh, Ha, Hhg, Hag in Hcount. apply Hcount. discriminate.
Defined.

(** X18: how a simulation fails. An unknown team gives the "Team not
    found" error and a team without players the "No players found" error
    under its stored name, both before any draw is made; no other failure
    than these and the two failures of the float arithmetic can come out
    of the call: neither the [IndexError] of an empty roster nor the
    [StopIteration] of an unknown scorer can, since the strengths are
    computed first and the scorers are players of the league. *)
Theorem simulate_match_failures
    (gauss_sample : float -> float -> nat -> float)
    (today home away : string) (w : World) :
  (find_team (data w) home = None \/ find_team (data w) away = None ->
   forall ds,
     simulate_match gauss_sample today home away w ds
     = (Failed MatchTeamNotFound, w))
  /\ (forall th ta,
        find_team (data w) home = Some th ->
        find_team (data w) away = Some ta ->
        team_players (data w) (t_name th) = [] ->
        forall ds,
          simulate_match gauss_sample today home away w ds
          = (Failed (NoPlayersFound (t_name th)), w))
  /\ (forall ds e w',
        simulate_match gauss_sample today home away w ds = (Failed e, w') ->
        simulation_failure e /\ w' = w).
Proof.
  split; [|split].
  - intros Hmiss ds. unfold simulate_match, prepare_match.
    destruct Hmiss as [-> | ->]; [reflexivity|].
    destruct (find_team (data w) home); reflexivity.
  - intros th ta Hth Hta Hroster ds.
    unfold simulate_match, prepare_match. rewrite Hth, Hta.
    unfold rbind. now rewrite (strength_no_players _ _ Hroster).
  - intros ds e w'. unfold simulate_match.
    destruct (prepare_match gauss_sample today home away (data w) ds)
      as [mr rest|e'|] eqn:Hprep; [| |discriminate].
    + apply prepare_match_events in Hprep. destruct Hprep as (Hall & _).
      unfold update_stats. cbn [data players].
      destruct (update_events_effect (events mr) _ Hall)
        as (ps' & Hupd & _).
      rewrite Hupd. discriminate.
    + intros [= <- <-]. split; [|reflexivity].
      now apply prepare_match_failed in Hprep.
Qed.

Lemma simulate_match_failures_witness :
  simulate_match draw_as_sample Sample.today "Red FC" "Nowhere FC"
                 Sample.world [] = (Failed MatchTeamNotFound, Sample.world)
  /\ simulate_match draw_as_sample Sample.today "ghost fc" "Red FC"
                    Sample.world [2; 1]%nat
     = (Failed (NoPlayersFound "Ghost FC"), Sample.world).
Proof.
  destruct (simulate_match_failures draw_as_sample Sample.today
              "Red FC" "Nowhere FC" Sample.world) as (H1 & _).
  destruct (simulate_match_failures draw_as_sample Sample.today
              "ghost fc" "Red FC" Sample.world) as (_ & H2 & _).
  split.
  - apply H1. right. reflexivity.
  - apply (H2 Sample.ghost Sample.red); reflexivity.
Defined.

(** X19: a match is simulated by the lowered spellings of the two team
    names alone: any other spelling of the same names gives the same
    outcome and the same world. *)
Theorem simulate_match_ignores_case
    (gauss_sample : float -> float -> nat -> float)
    (today home home' away away' : string) (w : World) (ds : list nat) :
  lower home = lower home' -> lower away = lower away' ->
  simulate_match gauss_sample today home' away' w ds
  = simulate_match gauss_sample today home away w ds.
Proof.
  intros Hh Ha. unfold simulate_match, prepare_match.
  now rewrite (find_team_case_insensitive _ _ _ Hh),
              (find_team_case_insensitive _ _ _ Ha).
Qed.

Lemma simulate_match_ignores_case_witness :
  simulate_match draw_as_sample Sample.today "RED FC" "blue fc" Sample.world
                 [2; 1; 44; 0; 0; 1; 9; 1; 0; 9; 3; 2]%nat
  = simulate_match draw_as_sample Sample.today "Red FC" "Blue FC"
                   Sample.world [2; 1; 44; 0; 0; 1; 9; 1; 0; 9; 3; 2]%nat.
Proof. apply simulate_match_ignores_case; reflexivity. Defined.

(* ================================================================= *)
(** ** The team report *)

Lemma max_from_first {A : Type} (key : A -> Z) :
  forall (l before between : list A) (best : A),
    Forall (fun y => key y < key best) before ->
    Forall (fun y => key y <= key best) between ->
    exists l1 l2,
      (before ++ best :: between ++ l)%list
      = (l1 ++ max_from key best l :: l2)%list
      /\ Forall (fun y => key y < key (max_from key best l)) l1
      /\ Forall (fun y => key y <= key (max_from key best l)) l2.
Proof.
  induction l as [|x l IH]; intros before between best Hb Hm;
    cbn [max_from].
  - exists before, between. rewrite app_nil_r. auto.
  - destruct (key x >? key best) eqn:Hx.
    + apply Z.gtb_lt in Hx.
      destruct (IH (before ++ best :: between)%list [] x) as (l1 & l2 & H).
      * apply Forall_app. split.
        -- eapply Forall_impl; [|exact Hb]. cbn. intros; lia.
        -- constructor; [lia|].
           eapply Forall_impl; [|exact Hm]. cbn. intros; lia.
      * constructor.
      * exists l1, l2. cbn [app] in H. rewrite <- app_assoc in H.
        exact H.
    + assert (Hle : key x <= key best).
      { destruct (Z.gtb_spec (key x) (key best)); [discriminate|lia]. }
      destruct (IH before (between ++ [x])%list best Hb) as (l1 & l2 & H).
      * apply Forall_app. split; [assumption|]. now repeat constructor.
      * exists l1, l2. rewrite <- app_assoc in H. exact H.
Qed.

(** [max(seq, key=...)] returns the first of the elements with the
    largest key. *)
Lemma py_max_first {A : Type} (key : A -> Z) (l : list A) (x : A) :
  py_max key l = Ok x ->
  exists l1 l2,
    l = (l1 ++ x :: l2)%list
    /\ Forall (fun y => key y < key x) l1
    /\ Forall (fun y => key y <= key x) l2.
Proof.
  unfold py_max. destruct l as [|y l]; [discriminate|]. intros [= <-].
  destruct (max_from_first key l [] [] y) as (l1 & l2 & H);
    [constructor | constructor |].
  now exists l1, l2.
Qed.

Lemma report_ok_inv (d : Data) (n : string) (r : TeamReport) :
  generate_team_report d n = Ok r ->
  exists t,
    find_team d n = Some t
    /\ team_name r = t_name t
    /\ r_league_position r = league_position t /\ r_points r = points t
    /\ py_max (fun p => goals (p_stats p)) (team_players d (t_name t))
       = Ok (top_scorer r)
    /\ py_max (fun p => assists (p_stats p)) (team_players d (t_name t))
       = Ok (top_assister r)
    /\ int_truediv (sum_Z (map p_age (team_players d (t_name t))))
                   (Z.of_nat (List.length (team_players d (t_name t))))
       = Ok (squad_age_average r)
    /\ int_truediv (sum_Z (map p_rating (team_players d (t_name t))))
                   (Z.of_nat (List.length (team_players d (t_name t))))
       = Ok (squad_rating_average r).
Proof.
  unfold generate_team_report.
  destruct (find_team d n) as [t|]; [|discriminate].
  set (roster := team_players d (t_name t)).
  destruct (py_max (fun p => goals (p_stats p)) roster) as [s|] eqn:Hs;
    cbn [bind]; [|discriminate].
  destruct (py_max (fun p => assists (p_stats p)) roster) as [a|] eqn:Ha;
    cbn [bind]; [|discriminate].
  destruct (int_truediv (sum_Z (map p_age roster)) _) as [x|] eqn:Hx;
    cbn [bind]; [|discriminate].
  destruct (int_truediv (sum_Z (map p_rating roster)) _) as [y|] eqn:Hy;
    cbn [bind]; [|discriminate].
  intros [= <-]. exists t. cbn. repeat split; assumption.
Qed.

(** X20: the top scorer of a report is a player of the roster whose goals
    no player of the roster exceeds, and among several such players the
    one stored first: every player before it on the roster has strictly
    fewer goals. The top assister is determined the same way by the
    assists. *)
Theorem report_top_players_are_first_maxima (d : Data) (n : string)
    (r : TeamReport) :
  generate_team_report d n = Ok r ->
  let roster := team_players d (team_name r) in
  (exists l1 l2,
      roster = (l1 ++ top_scorer r :: l2)%list
      /\ Forall (fun p => goals (p_stats p)
                          < goals (p_stats (top_scorer r))) l1
      /\ Forall (fun p => goals (p_stats p)
                          <= goals (p_stats (top_scorer r))) l2)
  /\ (exists l1 l2,
        roster = (l1 ++ top_assister r :: l2)%list
        /\ Forall (fun p => assists (p_stats p)
                            < assists (p_stats (top_assister r))) l1
        /\ Forall (fun p => assists (p_stats p)
                            <= assists (p_stats (top_assister r))) l2).
Proof.
  intros H. apply report_ok_inv in H.
  destruct H as (t & _ & -> & _ & _ & Hs & Ha & _).
  cbv zeta. split.
  - now apply (py_max_first (fun p => goals (p_stats p))).
  - now apply (py_max_first (fun p => assists (p_stats p))).
Qed.

Lemma report_top_players_are_first_maxima_witness :
  exists l1 l2,
    team_players Sample.league "Red FC" = (l1 ++ Sample.bob :: l2)%list
    /\ Forall (fun p => goals (p_stats p) < 5) l1.
Proof.
  destruct (report_top_players_are_first_maxima Sample.league "red fc"
              (mkReport "Red FC" 1 30 Sample.bob Sample.bob
                 (S754_finite false 7177611906121728 (-48))
                 (S754_finite false 5981343255101440 (-46))))
    as ((l1 & l2 & Hl & Hlt & _) & _).
  - vm_compute. reflexivity.
  - exists l1, l2. split; [exact Hl | exact Hlt].
Defined.

(** X21: on a team that has players the report never fails on a division
    by zero or in [max]: its only failure is the overflow of an average.
    What it returns carries the stored name, position and points of the
    team, and its rating average is the strength [calculate_team_strength]
    gives for that team. *)
Theorem report_on_a_manned_team (d : Data) (n : string) (t : Team) :
  find_team d n = Some t ->
  team_players d (t_name t) <> [] ->
  (forall e, generate_team_report d n = Raise e -> e = OverflowError)
  /\ (forall r,
        generate_team_report d n = Ok r ->
        team_name r = t_name t
        /\ r_league_position r = league_position t
        /\ r_points r = points t
        /\ calculate_team_strength d (t_name t)
           = Ok (squad_rating_average r)).
Proof.
  intros Ht Hroster. split.
  - intros e. unfold generate_team_report. rewrite Ht.
    destruct (team_players d (t_name t)) as [|p roster] eqn:Hr;
      [contradiction|].
    cbn [py_max bind].
    assert (Hlen : Z.of_nat (List.length (p :: roster)) <> 0)
      by (cbn [List.length]; lia).
    destruct (int_truediv (sum_Z (map p_age (p :: roster))) _) eqn:H1;
      cbn [bind];
      [|intros [= <-]; now apply int_truediv_nonzero_error in H1].
    destruct (int_truediv (sum_Z (map p_rating (p :: roster))) _) eqn:H2;
      cbn [bind]; [discriminate|].
    intros [= <-]. now apply int_truediv_nonzero_error in H2.
  - intros r H. apply report_ok_inv in H.
    destruct H as (t' & Ht' & Hn & Hpos & Hpts & _ & _ & _ & Havg).
    rewrite Ht in Ht'. injection Ht' as <-.
    repeat split; try assumption.
    rewrite strength_is_mean by assumption. exact Havg.
Qed.

Lemma report_on_a_manned_team_witness :
  calculate_team_strength Sample.league "Red FC"
  = Ok (S754_finite false 5981343255101440 (-46)).
Proof.
  destruct (report_on_a_manned_team Sample.league "RED fc" Sample.red)
    as (_ & H).
  - reflexivity.
  - discriminate.
  - destruct (H (mkReport "Red FC" 1 30 Sample.bob Sample.bob
                   (S754_finite false 7177611906121728 (-48))
                   (S754_finite false 5981343255101440 (-46))))
      as (_ & _ & _ & Hs).
    + vm_compute. reflexivity.
    + exact Hs.
Defined.

(* ================================================================= *)
(** ** C10: the three operations read the exact-match roster *)










(* ================================================================= *)
(** ** The player search *)

Lemma prefix_spec (a b : string) :
  String.prefix a b = true <-> exists rest, b = a ++ rest.
Proof.
  revert b. induction a as [|c a IH]; intros [|c' b]; cbn.
  - split; [intros _; now exists "" | reflexivity].
  - split; [intros _; now exists (String c' b) | reflexivity].
  - split; [discriminate | intros (rest & H); discriminate].
  - destruct (Ascii.ascii_dec c c') as [<- | Hne].
    + rewrite IH. split; intros (rest & H); exists rest; congruence.
    + split; [discriminate|]. intros (rest & H). congruence.
Qed.

(** [contains] decides the occurrence of a substring. *)
Lemma contains_spec (needle hay : string) :
  contains needle hay = true <-> occurs_in needle hay.
Proof.
  unfold occurs_in. induction hay as [|c hay IH]; cbn [contains].
  - rewrite orb_false_r, prefix_spec. split.
    + intros (rest & H). now exists "", rest.
    + intros (before & after & H). destruct before; [|discriminate].
      now exists after.
  - rewrite orb_true_iff, prefix_spec, IH. split.
    + intros [(rest & H) | (before & after & H)].
      * now exists "", rest.
      * exists (String c before), after. cbn. now rewrite H.
    + intros (before & after & H). destruct before as [|c' before].
      * left. now exists after.
      * right. exists before, after. cbn in H. congruence.
Qed.

Lemma is_blank_spec (s : string) : is_blank s = true <-> s = "".
Proof. destruct s; cbn; split; congruence. Qed.

Lemma is_blank_lower (s : string) : is_blank (lower s) = is_blank s.
Proof. now destruct s. Qed.

Lemma string_app_nil_r (s : string) : s ++ "" = s.
Proof. induction s as [|c s IH]; cbn; congruence. Qed.

Lemma string_app_assoc (a b c : string) : (a ++ b) ++ c = a ++ b ++ c.
Proof. induction a as [|x a IH]; cbn; congruence. Qed.

Lemma string_app_length (a b : string) :
  String.length (a ++ b) = (String.length a + String.length b)%nat.
Proof. induction a as [|x a IH]; cbn; congruence. Qed.

(** [digits_value] continues a decimal reading to the right. *)
Lemma reads_as_continue (s : string) :
  all_digits s = true ->
  forall before m,
    reads_as before m -> reads_as (before ++ s) (digits_value m s).
Proof.
  induction s as [|c s IH]; cbn [all_digits digits_value];
    intros Hs before m Hm.
  - now rewrite string_app_nil_r.
  - apply andb_true_iff in Hs. destruct Hs as [Hc Hs].
    change (String c s) with (String c "" ++ s).
    rewrite <- string_app_assoc. apply IH; [assumption|].
    now constructor.
Qed.

Lemma reads_as_digits (s : string) (m : Z) :
  reads_as s m -> isdigit s = true /\ digits_value 0 s = m.
Proof.
  assert (Hsnoc : forall s c acc,
             digits_value acc (s ++ String c "")
             = 10 * digits_value acc s + digit_of c).
  { clear. induction s as [|x s IH]; intros c acc; cbn; [reflexivity|].
    apply IH. }
  assert (Hall : forall s c, all_digits s = true -> is_digit_char c = true ->
                             all_digits (s ++ String c "") = true).
  { clear. induction s as [|x s IH]; intros c Hs Hc; cbn in *.
    - now rewrite Hc.
    - apply andb_true_iff in Hs. destruct Hs as [-> Hs]. now apply IH. }
  induction 1 as [c Hc|s m c Hs [Hd Hv] Hc].
  - unfold isdigit. cbn. rewrite Hc. split; [reflexivity|lia].
  - unfold isdigit in *. apply andb_true_iff in Hd. destruct Hd as [_ Hd].
    split.
    + apply andb_true_iff. split; [now destruct s | now apply Hall].
    + rewrite Hsnoc. now rewrite Hv.
Qed.

(** A string passes [isdigit] exactly when it has a decimal reading, and
    [digits_value] is that reading. *)
Lemma isdigit_reads (s : string) :
  isdigit s = true <-> reads_as s (digits_value 0 s).
Proof.
  split; [|intros H; now apply reads_as_digits in H].
  unfold isdigit. destruct s as [|c s]; [discriminate|].
  cbn [is_blank negb andb all_digits digits_value]. intros H.
  apply andb_true_iff in H. destruct H as [Hc Hs].
  change (String c s) with (String c "" ++ s).
  replace (10 * 0 + digit_of c) with (digit_of c) by lia.
  apply reads_as_continue; [assumption | now constructor].
Qed.

Lemma reads_as_unique (s : string) (m : Z) :
  reads_as s m -> m = digits_value 0 s.
Proof. intros H. apply reads_as_digits in H. now destruct H. Qed.

Section SearchFacts.

Variable limit : nat.

Lemma min_rating_of_cases (rating_str : string) :
  match min_rating_of limit rating_str with
  | NoMinimum => forall m, ~ reads_as rating_str m
  | Minimum m => reads_as rating_str m /\ ~ too_long limit rating_str
  | Refused => (exists m, reads_as rating_str m) /\ too_long limit rating_str
  end.
Proof.
  unfold min_rating_of, int_refuses, too_long.
  destruct (isdigit rating_str) eqn:Hd.
  - apply isdigit_reads in Hd.
    destruct (limit =? 0)%nat eqn:H0; cbn [negb andb].
    + apply Nat.eqb_eq in H0. split; [assumption|]. tauto.
    + apply Nat.eqb_neq in H0.
      destruct (640 <? String.length rating_str)%nat eqn:Ht; cbn [andb].
      * apply Nat.ltb_lt in Ht.
        destruct (limit <? String.length rating_str)%nat eqn:Hl.
        -- apply Nat.ltb_lt in Hl. eauto.
        -- apply Nat.ltb_ge in Hl. split; [assumption|]. lia.
      * apply Nat.ltb_ge in Ht. split; [assumption|]. lia.
  - intros m Hm. apply reads_as_digits in Hm. destruct Hm. congruence.
Qed.

(** X22: on ASCII answers the search goes one of two ways. When the
    rating answer is a string of more digits than [int()] converts, the
    [ValueError] ends the search, whatever the other answers are.
    Otherwise it returns, in the stored order, exactly the players that
    pass every criterion in force: the name and the team typed occur,
    case-insensitively, in the player's name and team, the position is
    the player's up to case, and, when the rating answer reads as a
    number other than zero, the rating is at least that number. A
    criterion left empty is not in force. *)
Theorem search_returns_the_matching_players
    (name team position rating_str : string) (d : Data) :
  ascii_text name = true -> ascii_text team = true ->
  ascii_text position = true -> ascii_text rating_str = true ->
  ((exists m, reads_as rating_str m) /\ too_long limit rating_str ->
   search_players limit name team position rating_str d = IntValueError)
  /\ (~ ((exists m, reads_as rating_str m) /\ too_long limit rating_str) ->
      exists keep,
        search_players limit name team position rating_str d
        = Results (filter keep (players d))
        /\ forall p,
             ascii_player p = true ->
             (keep p = true
              <-> (name = "" \/ occurs_in (lower name) (lower (p_name p)))
                  /\ (team = ""
                      \/ occurs_in (lower team) (lower (p_team p)))
                  /\ (position = ""
                      \/ lower position = lower (p_position p))
                  /\ (forall m, reads_as rating_str m ->
                                m = 0 \/ m <= p_rating p))).
Proof.
  intros _ _ _ _.
  pose proof (min_rating_of_cases rating_str) as Hcases.
  unfold search_players.
  destruct (min_rating_of limit rating_str) as [|m|].
  - split; [intros ((m & Hm) & _); now apply Hcases in Hm|].
    intros _. eexists. split; [reflexivity|]. intros p _.
    unfold search_matches, rating_passes.
    rewrite !andb_true_iff, !orb_true_iff, !is_blank_spec,
      !contains_spec, String.eqb_eq.
    split; [|tauto]. intros (((Hn & Ht) & Hp) & _).
    repeat split; try assumption. intros m Hm. now apply Hcases in Hm.
  - destruct Hcases as [Hm Hfits].
    split; [intros (_ & Hlong); contradiction|].
    intros _. eexists. split; [reflexivity|]. intros p _.
    unfold search_matches, rating_passes.
    rewrite !andb_true_iff, !orb_true_iff, !is_blank_spec,
      !contains_spec, String.eqb_eq, Z.eqb_eq, Z.leb_le.
    split.
    + intros (((Hn & Ht) & Hp) & Hr). repeat split; try assumption.
      intros m' Hm'. apply reads_as_unique in Hm, Hm'. now subst.
    + intros (Hn & Ht & Hp & Hr). repeat split; auto.
  - split; [reflexivity|]. intros H. now contradiction H.
Qed.

(** X23: a rating answer in ASCII that [int()] is not asked for or
    converts, and that has no decimal reading other than zero, is
    ignored: an answer with a sign, a decimal point or a blank, and an
    answer of zeros only, give the results of an empty rating answer. With
    all four answers empty the search returns every player. *)
Theorem search_ignores_unusable_rating
    (name team position rating_str : string) (d : Data) :
  ascii_text rating_str = true ->
  ~ too_long limit rating_str ->
  (forall m, reads_as rating_str m -> m = 0) ->
  search_players limit name team position rating_str d
  = search_players limit name team position "" d
  /\ search_players limit "" "" "" "" d = Results (players d).
Proof.
  intros _ Hfits Hzero.
  assert (Hall : search_players limit "" "" "" "" d = Results (players d)).
  { unfold search_players, search_matches. cbn. f_equal.
    induction (players d) as [|p l IH]; cbn; congruence. }
  split; [|exact Hall].
  pose proof (min_rating_of_cases rating_str) as Hcases.
  unfold search_players at 1 2.
  change (min_rating_of limit "") with NoMinimum.
  destruct (min_rating_of limit rating_str) as [|m|].
  - reflexivity.
  - destruct Hcases as [Hm _]. apply Hzero in Hm. subst m. reflexivity.
  - destruct Hcases as (_ & Hlong). contradiction.
Qed.

Lemma filter_filter {A : Type} (f g : A -> bool) (l : list A) :
  filter f (filter g l) = filter (fun x => g x && f x) l.
Proof.
  induction l as [|x l IH]; cbn; [reflexivity|].
  destruct (g x); cbn; [destruct (f x)|]; now rewrite IH.
Qed.

(** X24: the four criteria compose: searching with all of them is
    searching by rating, then by position, then by team, then by name,
    each search run on the results of the one before; it fails exactly
    when the search by rating does. *)
Theorem search_criteria_compose
    (name team position rating_str : string) (d : Data) :
  let on l := mkData (teams d) l in
  search_players limit name team position rating_str d
  = then_search (search_players limit "" "" "" rating_str d) (fun l1 =>
      then_search (search_players limit "" "" position "" (on l1)) (fun l2 =>
        then_search (search_players limit "" team "" "" (on l2)) (fun l3 =>
          search_players limit name "" "" "" (on l3)))).
Proof.
  cbv zeta. unfold search_players.
  change (min_rating_of limit "") with NoMinimum.
  assert (Hflat : forall mr,
    filter (search_matches name team position mr) (players d)
    = filter (search_matches name "" "" None)
        (filter (search_matches "" team "" None)
           (filter (search_matches "" "" position None)
              (filter (search_matches "" "" "" mr) (players d))))).
  { intros mr. rewrite !filter_filter. apply filter_ext. intros p.
    unfold search_matches. cbn [is_blank orb andb rating_passes].
    rewrite !andb_true_r.
    destruct (rating_passes mr p),
      (is_blank position || (lower position =? lower (p_position p))%string),
      (is_blank team || contains (lower team) (lower (p_team p))),
      (is_blank name || contains (lower name) (lower (p_name p)));
      reflexivity. }
  destruct (min_rating_of limit rating_str); cbn [then_search players];
    try reflexivity; now rewrite Hflat.
Qed.

Lemma lower_blank (a b : string) :
  lower a = lower b -> is_blank a = is_blank b.
Proof. intros H. now rewrite <- (is_blank_lower a), H, is_blank_lower. Qed.

(** X25: the search does not see the case of the letters typed for the
    name, the team and the position. *)
Theorem search_ignores_case
    (name name' team team' position position' rating_str : string)
    (d : Data) :
  lower name = lower name' -> lower team = lower team' ->
  lower position = lower position' ->
  search_players limit name' team' position' rating_str d
  = search_players limit name team position rating_str d.
Proof.
  intros Hn Ht Hp. unfold search_players.
  assert (Hsame : forall mr p,
            search_matches name' team' position' mr p
            = search_matches name team position mr p).
  { intros mr p. unfold search_matches.
    now rewrite (lower_blank _ _ Hn), (lower_blank _ _ Ht),
      (lower_blank _ _ Hp), Hn, Ht, Hp. }
  destruct (min_rating_of limit rating_str); try reflexivity;
    f_equal; apply filter_ext; intros p; apply Hsame.
Qed.

End SearchFacts.

Lemma search_returns_the_matching_players_witness :
  search_players 4300 "O" "red" "mf" "85" Sample.league
  = Results [Sample.bob]
  /\ search_players 4300 "" "" "" (String.concat "" (repeat "0" 4301))
                    Sample.league
     = IntValueError.
Proof.
  destruct (search_returns_the_matching_players 4300 "O" "red" "mf" "85"
              Sample.league) as [_ H]; try reflexivity.
  destruct (search_returns_the_matching_players 4300 "" "" ""
              (String.concat "" (repeat "0" 4301)) Sample.league)
    as [Hrefused _]; try (vm_compute; reflexivity).
  split.
  - destruct H as (keep & Hrun & _).
    + intros (_ & _ & Hlen & _). vm_compute in Hlen. lia.
    + vm_compute. reflexivity.
  - apply Hrefused. split.
    + exists (digits_value 0 (String.concat "" (repeat "0" 4301))).
      apply isdigit_reads. vm_compute. reflexivity.
    + unfold too_long.
      replace (String.length (String.concat "" (repeat "0" 4301)))
        with 4301%nat by (vm_compute; reflexivity).
      lia.
Defined.

Lemma search_ignores_unusable_rating_witness :
  search_players 4300 "" "Red" "" "-5" Sample.league
  = search_players 4300 "" "Red" "" "" Sample.league
  /\ search_players 4300 "" "Red" "" "00" Sample.league
     = search_players 4300 "" "Red" "" "" Sample.league.
Proof.
  destruct (search_ignores_unusable_rating 4300 "" "Red" "" "-5"
              Sample.league) as [H1 _].
  - reflexivity.
  - intros (_ & Hlen & _). cbn in Hlen. lia.
  - intros m Hm. apply reads_as_digits in Hm. destruct Hm as [Hd _].
    discriminate Hd.
  - destruct (search_ignores_unusable_rating 4300 "" "Red" "" "00"
                Sample.league) as [H2 _].
    + reflexivity.
    + intros (_ & Hlen & _). cbn in Hlen. lia.
    + intros m Hm. apply reads_as_unique in Hm. exact Hm.
    + split; [exact H1 | exact H2].
Defined.

Lemma search_ignores_case_witness :
  search_players 4300 "ALI" "red fc" "fw" "70" Sample.league
  = search_players 4300 "ali" "Red FC" "FW" "70" Sample.league.
Proof. apply search_ignores_case; reflexivity. Defined.
